(** * PrettyJSON: the terminal renderer of sqliteadmin

    A shallow embedding of [prettyJSON.js] (class [PrettyJSON]) and the
    properties of its truncator, block layout and table layout.

    JavaScript strings are sequences of UTF-16 code units; they are modelled
    as lists of code units, a code unit being its number.  Lengths, indices
    and the maximum handed to [#truncate] are JavaScript numbers holding
    integers, modelled in [Z] (an index can be [-1], a slice end negative). *)

From Stdlib Require Import Ascii String.
From Stdlib Require Import ZArith List Bool Lia.
From Stdlib Require Import Permutation.
From Stdlib Require Decimal.
Import ListNotations.

Open Scope Z_scope.

(** ** JavaScript strings *)

Module JS.

Definition cu := N.
Definition jsstring := list cu.

(** A source literal made of ASCII characters. *)
Definition lit (s : string) : jsstring :=
  map N_of_ascii (list_ascii_of_string s).

Definition NL : cu := 10%N.    (* '\n' *)
Definition ESC : cu := 27%N.   (* '\u001b' *)
Definition SP : cu := 32%N.    (* ' ' *)

(** [str.length] *)
Definition len (s : jsstring) : Z := Z.of_nat (length s).

(** Position of the first occurrence of a code unit, if any. *)
Fixpoint find_cu (c : cu) (s : jsstring) : option nat :=
  match s with
  | [] => None
  | x :: t =>
      if N.eqb x c then Some 0%nat
      else match find_cu c t with
           | Some i => Some (S i)
           | None => None
           end
  end.

(** [str.indexOf(c)] for a one-unit needle: the first index, or [-1]. *)
Definition indexOf (c : cu) (s : jsstring) : Z :=
  match find_cu c s with
  | Some i => Z.of_nat i
  | None => -1
  end.

(** [str.slice(0, e)]: a negative end counts from the end of the string and
    is clamped at 0; an end past the string is clamped to its length. *)
Definition slice0 (s : jsstring) (e : Z) : jsstring :=
  let final := if e <? 0 then Z.max (len s + e) 0 else Z.min e (len s) in
  firstn (Z.to_nat final) s.

(** [str.endsWith(c)] for a one-unit suffix. *)
Definition endsWith (c : cu) (s : jsstring) : bool :=
  match List.rev s with
  | x :: _ => N.eqb x c
  | [] => false
  end.

(** [c.repeat(n)] for a one-unit string. *)
Definition repeat_cu (c : cu) (n : nat) : jsstring := repeat c n.

(** [str.padEnd(w)]: spaces are appended up to length [w]. *)
Definition padEnd (s : jsstring) (w : Z) : jsstring :=
  s ++ repeat_cu SP (Z.to_nat (w - len s)).

(** [lines.join(sep)] *)
Fixpoint join (sep : jsstring) (l : list jsstring) : jsstring :=
  match l with
  | [] => []
  | [x] => x
  | x :: t => x ++ sep ++ join sep t
  end.

(** Decimal digits of an unsigned decimal numeral. *)
Fixpoint uint_cus (d : Decimal.uint) : jsstring :=
  match d with
  | Decimal.Nil => []
  | Decimal.D0 r => 48%N :: uint_cus r
  | Decimal.D1 r => 49%N :: uint_cus r
  | Decimal.D2 r => 50%N :: uint_cus r
  | Decimal.D3 r => 51%N :: uint_cus r
  | Decimal.D4 r => 52%N :: uint_cus r
  | Decimal.D5 r => 53%N :: uint_cus r
  | Decimal.D6 r => 54%N :: uint_cus r
  | Decimal.D7 r => 55%N :: uint_cus r
  | Decimal.D8 r => 56%N :: uint_cus r
  | Decimal.D9 r => 57%N :: uint_cus r
  end.

(** [n.toString()] for a number holding a safe integer (at most 2^53 in
    absolute value), where the digits JavaScript prints are the digits of
    the integer.  It is used for the lengths of strings and for the small
    integers of the examples. *)
Definition int_toString (z : Z) : jsstring :=
  if z <? 0 then 45%N :: uint_cus (N.to_uint (Z.to_N (- z)))
  else uint_cus (N.to_uint (Z.to_N z)).

(** Equality of strings, as [===] and [Array.prototype.includes] use it. *)
Fixpoint str_eqb (a b : jsstring) : bool :=
  match a, b with
  | [], [] => true
  | x :: a', y :: b' => N.eqb x y && str_eqb a' b'
  | _, _ => false
  end.

Definition includes (l : list jsstring) (k : jsstring) : bool :=
  existsb (str_eqb k) l.

(** *** Escape sequences *)

Definition is_digit (c : cu) : bool := (48 <=? c)%N && (c <=? 57)%N.
Definition is_param (c : cu) : bool := is_digit c || N.eqb c 59%N.  (* [0-9;] *)

(** The greedy run [[0-9;]*] followed by [m]: the number of units matched.
    No unit of the class is an [m], so the greedy run is the only candidate. *)
Fixpoint params_m (s : jsstring) : option nat :=
  match s with
  | [] => None
  | c :: t =>
      if is_param c then option_map S (params_m t)
      else if N.eqb c 109%N then Some 1%nat
      else None
  end.

(** Length of a match of [/\u001b\[[0-9;]*m/] at the head of [s]. *)
Definition sgr_len (s : jsstring) : option nat :=
  match s with
  | e :: b :: t =>
      if N.eqb e ESC && N.eqb b 91%N
      then option_map (fun n => (2 + n)%nat) (params_m t)
      else None
  | _ => None
  end.

(** [str.replace(/\u001b\[[0-9;]*m/g, '')]: the string is scanned from the
    left; a match is dropped and the scan resumes after it, any other unit
    is kept.  [skip] counts the units of the current match still to drop. *)
Fixpoint strip_from (skip : nat) (s : jsstring) : jsstring :=
  match s with
  | [] => []
  | c :: t =>
      match skip with
      | S k => strip_from k t
      | O =>
          match sgr_len s with
          | Some n => strip_from (Nat.pred n) t
          | None => c :: strip_from 0 t
          end
      end
  end.

(** [display.match(/^\u001b\[[\d;]+m/)?.[0] || '']: the leading escape
    sequence with at least one parameter unit, or the empty string. *)
Definition leading_sgr (s : jsstring) : jsstring :=
  match s with
  | e :: b :: p :: _ =>
      if N.eqb e ESC && N.eqb b 91%N && is_param p
      then match sgr_len s with
           | Some n => firstn n s
           | None => []
           end
      else []
  | _ => []
  end.

End JS.
Import JS.

(** A literal that starts with the escape unit: [esc "[0m"] is ['\u001b[0m']. *)
Definition esc (s : string) : jsstring := ESC :: lit s.

(** [static #stripColors(str)] *)
Definition stripColors (str : jsstring) : jsstring := strip_from 0 str.

(** ** Configuration: the two static fields of the class *)

(** [max_prim_length] is [None] when it holds no number ([undefined], [NaN]). *)
Record Config := {
  max_prim_length : option Z;
  discourage_multiline : bool
}.

Definition default_config : Config :=
  {| max_prim_length := Some (-1); discourage_multiline := false |}.

(** ** [#truncate] *)

(** [!maxLen || isNaN(maxLen) || maxLen < 0] *)
Definition no_limit (maxLen : option Z) : bool :=
  match maxLen with
  | None => true
  | Some m => (m =? 0) || (m <? 0)
  end.

(** [maxLen] after the first adjustment of [#truncate] (lines 55 to 57):
    no limit means the length of the text. *)
Definition limit_or_length (str : jsstring) (maxLen : option Z) : Z :=
  if no_limit maxLen then len str
  else match maxLen with Some m => m | None => len str end.

(** [maxLen] after the second adjustment (lines 59 to 61): a line break
    before the limit replaces it. *)
Definition effective_max (str : jsstring) (maxLen : option Z) : Z :=
  let new_line_idx := indexOf NL str in
  let maxLen := limit_or_length str maxLen in
  if negb (new_line_idx =? -1) && (new_line_idx <? maxLen)
  then new_line_idx else maxLen.

Definition truncate (cfg : Config) (str : jsstring) (maxLen : option Z)
  : jsstring :=
  let maxLen := effective_max str maxLen in
  if len str <=? maxLen then str
  else if (24 <? maxLen) && discourage_multiline cfg then
    if endsWith NL (slice0 str (maxLen + 1))
    then slice0 str (maxLen - 21)
           ++ lit " " ++ esc "[0m(multi-line "
           ++ int_toString (len str - maxLen) ++ lit " more...)"
    else slice0 str (maxLen - 12 - len (int_toString (len str - maxLen)))
           ++ lit "... " ++ esc "[0m("
           ++ int_toString (len str - maxLen) ++ lit " more)"
  else slice0 str (maxLen - 3) ++ lit "...".

(** ** Values *)

Section Renderer.

(** A JavaScript number is an IEEE double and [value.toString()] is the
    language's own conversion; the renderer only moves its text around, so
    the type of numbers and their [toString] are left open. *)
Context {num : Type}.
Variable num_toString : num -> jsstring.

#[local] Set Warnings "-register-all".

(** The values the renderer tells apart.  An object lists its own
    enumerable string keys in the order of [Object.keys], and its property
    values are values of this type, so none is callable.  [VUndef] is
    [undefined]; functions, symbols and bigints are outside the model. *)
Inductive Value : Type :=
  | VNull
  | VStr (s : jsstring)
  | VNum (x : num)
  | VBool (b : bool)
  | VUndef
  | VArr (items : list Value)
  | VObj (fields : list (jsstring * Value)).

#[local] Set Warnings "register-all".

Inductive ValueType := primitive | array | object | unknown.

(** [static #getType(value)] *)
Definition getType (value : Value) : ValueType :=
  match value with
  | VNull | VStr _ | VNum _ | VBool _ => primitive
  | VArr _ => array
  | VObj _ => object
  | VUndef => unknown
  end.

Definition is_primitive (value : Value) : bool :=
  match getType value with primitive => true | _ => false end.

Definition is_object (value : Value) : bool :=
  match getType value with object => true | _ => false end.

(** [Object.keys(obj)] *)
Definition keys_of (fields : list (jsstring * Value)) : list jsstring :=
  map fst fields.

Definition Object_keys (value : Value) : list jsstring :=
  match value with
  | VObj fields => keys_of fields
  | _ => []
  end.

(** [obj[key]]: the value of the property, [undefined] when there is none. *)
Fixpoint get_prop (fields : list (jsstring * Value)) (key : jsstring) : Value :=
  match fields with
  | [] => VUndef
  | (k, v) :: rest => if str_eqb k key then v else get_prop rest key
  end.

Definition prop (row : Value) (key : jsstring) : Value :=
  match row with
  | VObj fields => get_prop fields key
  | _ => VUndef
  end.

(** [String(value)] raises a TypeError instead of returning when the value
    is an object with an own property [toString] (its value is not
    callable, and the inherited [valueOf] returns the object itself), or an
    array one of whose elements, other than [null] and [undefined], is
    converted so. *)
Fixpoint String_throws (value : Value) : bool :=
  match value with
  | VObj fields => includes (map fst fields) (lit "toString")
  | VArr items =>
      existsb (fun item =>
                 match item with
                 | VNull | VUndef => false
                 | _ => String_throws item
                 end) items
  | _ => false
  end.

(** The text [String(value)] returns when it returns, that is when
    [String_throws] is [false]: an array joins the conversions of its
    elements with commas, [null] and [undefined] elements giving the empty
    string.  Where the conversion throws no text is returned, and what is
    computed here stands for nothing. *)
Fixpoint js_String (value : Value) : jsstring :=
  match value with
  | VNull => lit "null"
  | VUndef => lit "undefined"
  | VStr s => s
  | VNum x => num_toString x
  | VBool b => if b then lit "true" else lit "false"
  | VObj _ => lit "[object Object]"
  | VArr items =>
      join (lit ",")
        (map (fun item =>
                match item with
                | VNull | VUndef => []
                | _ => js_String item
                end) items)
  end.

(** ** [#formatPrimitive] *)

Definition formatPrimitive (cfg : Config) (value : Value) : jsstring :=
  match value with
  | VStr s =>
      esc "[93m" ++ truncate cfg s (max_prim_length cfg) ++ esc "[0m"
  | VNum x =>
      esc "[36m" ++ truncate cfg (num_toString x) (max_prim_length cfg)
        ++ esc "[0m"
  | VBool b =>
      if b then esc "[32mtrue" ++ esc "[0m" else esc "[31mfalse" ++ esc "[0m"
  | VNull => esc "[90mnull" ++ esc "[0m"
  | _ => js_String value
  end.

(** [#formatPrimitive] returns in its first four branches and throws in the
    last when [String(value)] does; [formatPrimitive] is the text returned
    otherwise. *)
Definition formatPrimitive_throws (value : Value) : bool :=
  match value with
  | VStr _ | VNum _ | VBool _ | VNull => false
  | _ => String_throws value
  end.

(** ** [#printTable] *)

(** Box-drawing units. *)
Definition box_h : cu := 9472%N.    (* ─ *)
Definition box_v : cu := 9474%N.    (* │ *)
Definition box_tl : cu := 9484%N.   (* ┌ *)
Definition box_tr : cu := 9488%N.   (* ┐ *)
Definition box_bl : cu := 9492%N.   (* └ *)
Definition box_br : cu := 9496%N.   (* ┘ *)
Definition box_l : cu := 9500%N.    (* ├ *)
Definition box_r : cu := 9508%N.    (* ┤ *)
Definition box_t : cu := 9516%N.    (* ┬ *)
Definition box_b : cu := 9524%N.    (* ┴ *)

(** [Math.max(headerLen, ...valuesLens)] *)
Definition Math_max (first : Z) (rest : list Z) : Z :=
  fold_left Z.max rest first.

(** The width computed for one column, the right-hand side of
    [widths[key] = Math.min(Math.max(headerLen, ...valuesLens), 50)]. *)
Definition col_width (cfg : Config) (arr : list Value) (key : jsstring) : Z :=
  let headerLen := len key in
  let valuesLens :=
    map (fun row =>
           let val := prop row key in
           let str := formatPrimitive cfg val in
           len (stripColors str)) arr in
  Z.min (Math_max headerLen valuesLens) 50.

(** The object [widths] starts as [{}], so its prototype is
    [Object.prototype].  It is modelled by the list of its own properties,
    all numbers.  An assignment replaces the entry of a key that is present
    and adds one otherwise, except for the key [__proto__]: assigning a
    number to it runs the setter of [Object.prototype], which ignores it. *)
Definition proto_key : jsstring := lit "__proto__".

Fixpoint set_own (widths : list (jsstring * Z)) (key : jsstring) (w : Z)
  : list (jsstring * Z) :=
  match widths with
  | [] => [(key, w)]
  | (k, x) :: rest =>
      if str_eqb k key then (k, w) :: rest
      else (k, x) :: set_own rest key w
  end.

(** [widths[key] = w] *)
Definition set_width (widths : list (jsstring * Z)) (key : jsstring) (w : Z)
  : list (jsstring * Z) :=
  if str_eqb key proto_key then widths else set_own widths key w.

Fixpoint get_own (widths : list (jsstring * Z)) (key : jsstring) : option Z :=
  match widths with
  | [] => None
  | (k, x) :: rest => if str_eqb k key then Some x else get_own rest key
  end.

(** [widths[key]]: [Some w] when the value read is the number [w], [None]
    when it is not a number.  Reading [__proto__] gives [Object.prototype];
    a key that was never assigned is not read by [#printTable]. *)
Definition get_width (widths : list (jsstring * Z)) (key : jsstring)
  : option Z :=
  if str_eqb key proto_key then None else get_own widths key.

(** What the code does with a width that may not be a number.
    [sum + widths[k] + 3] is a number when both are numbers and a text that
    is no numeral when [widths[k]] is an object; [str.padEnd(w)] pads to
    [ToLength(w)], which is 0 for an object; [c.repeat(n)] repeats
    [ToIntegerOrInfinity(n)] times, which is 0 when [n] is no number (a
    number read here is never negative: every width is at least 0 and the
    table has at least one column). *)
Definition add_width (sum w : option Z) : option Z :=
  match sum, w with
  | Some s, Some x => Some (s + x + 3)
  | _, _ => None
  end.

Definition padEnd_to (s : jsstring) (w : option Z) : jsstring :=
  match w with
  | Some n => padEnd s n
  | None => s
  end.

Definition repeat_to (c : cu) (n : option Z) : jsstring :=
  match n with
  | Some k => repeat_cu c (Z.to_nat k)
  | None => []
  end.

(** [keys.forEach(key => { ... widths[key] = ... })] from [widths = {}]. *)
Definition compute_widths (cfg : Config) (arr : list Value)
  (keys : list jsstring) : list (jsstring * Z) :=
  fold_left (fun widths key => set_width widths key (col_width cfg arr key))
    keys [].

(** The text of one cell between its two padding spaces: the last
    assignment to [display] in the row loop. *)
Definition cell_display (cfg : Config) (row : Value) (key : jsstring)
  (width : Z) : jsstring :=
  let rawVal := prop row key in
  let display := formatPrimitive cfg rawVal in
  let colorCode := leading_sgr display in
  let reset := esc "[0m" in
  let plain := stripColors display in
  let display := truncate cfg plain (Some width) in
  let display := stripColors display in
  colorCode ++ padEnd display width ++ reset.

(** The same assignment when [widths[key]] is no number: [isNaN(maxLen)]
    holds in [#truncate], which then sets no limit, and [padEnd] adds
    nothing. *)
Definition cell_display_object (cfg : Config) (row : Value) (key : jsstring)
  : jsstring :=
  let rawVal := prop row key in
  let display := formatPrimitive cfg rawVal in
  let colorCode := leading_sgr display in
  let reset := esc "[0m" in
  let plain := stripColors display in
  let display := truncate cfg plain None in
  let display := stripColors display in
  colorCode ++ display ++ reset.

Definition cell_at (cfg : Config) (row : Value) (key : jsstring)
  (width : option Z) : jsstring :=
  match width with
  | Some w => cell_display cfg row key w
  | None => cell_display_object cfg row key
  end.

(** [Object.keys(arr[0])] *)
Definition firstKeys (arr : list Value) : list jsstring :=
  match arr with
  | first :: _ => Object_keys first
  | [] => []
  end.

(** [#printTable(arr, indent)], called for an array whose first row has at
    least one key: the text returned when the conversion of no cell throws
    (see [printTable_throws]). *)
Definition printTable (cfg : Config) (arr : list Value) (indent : nat)
  : jsstring :=
  let keys := firstKeys arr in
  let indentStr := repeat_cu SP (indent * 2) in
  let widths := compute_widths cfg arr keys in
  let totalWidth :=
    option_map (fun sum => sum + 2)
      (fold_left (fun sum k => add_width sum (get_width widths k)) keys
         (Some (-3))) in
  let top :=
    indentStr ++ [box_tl] ++ repeat_to box_h totalWidth ++ [box_tr] in
  let headerCells :=
    join [box_v]
      (map (fun key =>
              let padded := padEnd_to key (get_width widths key) in
              lit " " ++ esc "[1m" ++ padded ++ esc "[0m" ++ lit " ") keys) in
  let header := indentStr ++ [box_v] ++ headerCells ++ [box_v] in
  let sep :=
    join [box_t]
      (map (fun key =>
              repeat_to box_h
                (option_map (fun w => w + 2) (get_width widths key))) keys) in
  let separator := indentStr ++ [box_l] ++ sep ++ [box_r] in
  let rows :=
    map (fun row =>
           let cells :=
             join [box_v]
               (map (fun key =>
                       lit " "
                         ++ cell_at cfg row key (get_width widths key)
                         ++ lit " ") keys) in
           indentStr ++ [box_v] ++ cells ++ [box_v]) arr in
  let bottom :=
    join [box_b]
      (map (fun key =>
              repeat_to box_h
                (option_map (fun w => w + 2) (get_width widths key))) keys) in
  let last := indentStr ++ [box_bl] ++ bottom ++ [box_br] in
  NL :: join [NL] ([top; header; separator] ++ rows ++ [last]).

(** [#printTable] calls [#formatPrimitive] on every cell while it computes
    the widths: it throws when one of these calls does. *)
Definition printTable_throws (arr : list Value) : bool :=
  existsb (fun key =>
             existsb (fun row => formatPrimitive_throws (prop row key)) arr)
    (firstKeys arr).

(** ** [#printObject], [#printArray] and [print] *)

(** The two lines a key can give, lines 88 and 90 of the source. *)
Definition key_value_line (cfg : Config) (indent : nat) (key : jsstring)
  (value : Value) : jsstring :=
  lit "  " ++ repeat_cu SP (indent * 2) ++ esc "[1m" ++ key ++ esc "[0m"
    ++ lit ": " ++ formatPrimitive cfg value.

Definition key_line (indent : nat) (key : jsstring) : jsstring :=
  lit "  " ++ repeat_cu SP (indent * 2) ++ esc "[1m" ++ key ++ esc "[0m"
    ++ lit ":".

(** The lines pushed for one key.  [print] is the recursive call
    [this.print]. *)
Definition object_lines (print : Value -> nat -> jsstring) (cfg : Config)
  (indent : nat) (entry : jsstring * Value) : list jsstring :=
  let (key, value) := entry in
  if is_primitive value then [key_value_line cfg indent key value]
  else [key_line indent key; print value (indent + 1)%nat].

(** The loop of the source runs over the keys and reads [obj[key]]; the
    keys of an object are distinct, so this is the loop over its entries
    (see [printObject_by_keys] and [printObject_by_keys_eq]). *)
Definition printObject (print : Value -> nat -> jsstring) (cfg : Config)
  (obj : list (jsstring * Value)) (indent : nat) : jsstring :=
  let keys := keys_of obj in
  if (length keys =? 0)%nat then repeat_cu SP (indent * 2) ++ lit "{}"
  else join [NL] (flat_map (object_lines print cfg indent) obj).

(** [#printObject] with the loop written as in the source,
    [for (const key of keys) { const value = obj[key]; ... }]. *)
Definition printObject_by_keys (print : Value -> nat -> jsstring)
  (cfg : Config) (obj : list (jsstring * Value)) (indent : nat) : jsstring :=
  let keys := keys_of obj in
  if (length keys =? 0)%nat then repeat_cu SP (indent * 2) ++ lit "{}"
  else join [NL]
         (flat_map (fun key =>
                      let value := get_prop obj key in
                      object_lines print cfg indent (key, value)) keys).

Definition allObjects (arr : list Value) : bool :=
  forallb is_object arr.

Definition allSameShape (arr : list Value) : bool :=
  forallb (fun item =>
             let keys := Object_keys item in
             (length keys =? length (firstKeys arr))%nat
               && forallb (fun k => includes (firstKeys arr) k) keys) arr.

(** The guard of the [return this.#printTable(arr, indent)] of line 113,
    for an array that passed the emptiness test of line 99. *)
Definition table_mode (arr : list Value) : bool :=
  if allObjects arr && (0 <? length arr)%nat
  then allSameShape arr && (0 <? length (firstKeys arr))%nat
  else false.

(** The fallback of line 117. *)
Definition vertical_list (print : Value -> nat -> jsstring)
  (arr : list Value) (indent : nat) : jsstring :=
  join [NL] (map (fun item => print item (indent + 1)%nat) arr).

Definition printArray (print : Value -> nat -> jsstring) (cfg : Config)
  (arr : list Value) (indent : nat) : jsstring :=
  if (length arr =? 0)%nat then repeat_cu SP (indent * 2) ++ lit "[]"
  else if table_mode arr then printTable cfg arr indent
  else vertical_list print arr indent.

(** [static print(obj, indent = 0)]: the text returned when no conversion
    throws and the call stack is deep enough; the exceptions are in
    [print_fuel] below. *)
Fixpoint print (cfg : Config) (obj : Value) (indent : nat) {struct obj}
  : jsstring :=
  let indentStr := repeat_cu SP (indent * 2) in
  match obj with
  | VArr items => printArray (print cfg) cfg items indent
  | VObj fields => printObject (print cfg) cfg fields indent
  | VUndef => indentStr ++ js_String obj
  | _ => indentStr ++ formatPrimitive cfg obj
  end.

(** ** The outcomes of [print] *)

(** A call of [print] returns a text or raises an exception; the renderer
    catches none.  [print_fuel] is [print] with its two exceptions: the
    TypeError of a conversion [String(value)], and the RangeError of the
    engine when the nested activations of [print] exceed what the call
    stack admits, [fuel] activations here. *)
Inductive outcome (A : Type) : Type :=
  | Returned (a : A)
  | TypeError
  | RangeError.

Arguments Returned {A} a.
Arguments TypeError {A}.
Arguments RangeError {A}.

Definition outcome_map {A B : Type} (f : A -> B) (o : outcome A)
  : outcome B :=
  match o with
  | Returned a => Returned (f a)
  | TypeError => TypeError
  | RangeError => RangeError
  end.

(** The calls are made in order and the first exception ends the loop. *)
Fixpoint mapM {A B : Type} (f : A -> outcome B) (l : list A)
  : outcome (list B) :=
  match l with
  | [] => Returned []
  | x :: t =>
      match f x with
      | Returned y => outcome_map (cons y) (mapM f t)
      | TypeError => TypeError
      | RangeError => RangeError
      end
  end.

Definition object_lines_fuel (print : Value -> nat -> outcome jsstring)
  (cfg : Config) (indent : nat) (entry : jsstring * Value)
  : outcome (list jsstring) :=
  let (key, value) := entry in
  if is_primitive value then Returned [key_value_line cfg indent key value]
  else outcome_map (fun text => [key_line indent key; text])
         (print value (indent + 1)%nat).

Definition printObject_fuel (print : Value -> nat -> outcome jsstring)
  (cfg : Config) (obj : list (jsstring * Value)) (indent : nat)
  : outcome jsstring :=
  let keys := keys_of obj in
  if (length keys =? 0)%nat
  then Returned (repeat_cu SP (indent * 2) ++ lit "{}")
  else outcome_map (fun lines => join [NL] (concat lines))
         (mapM (object_lines_fuel print cfg indent) obj).

Definition printTable_outcome (cfg : Config) (arr : list Value)
  (indent : nat) : outcome jsstring :=
  if printTable_throws arr then TypeError
  else Returned (printTable cfg arr indent).

Definition printArray_fuel (print : Value -> nat -> outcome jsstring)
  (cfg : Config) (arr : list Value) (indent : nat) : outcome jsstring :=
  if (length arr =? 0)%nat
  then Returned (repeat_cu SP (indent * 2) ++ lit "[]")
  else if table_mode arr then printTable_outcome cfg arr indent
  else outcome_map (join [NL])
         (mapM (fun item => print item (indent + 1)%nat) arr).

Fixpoint print_fuel (fuel : nat) (cfg : Config) (obj : Value) (indent : nat)
  : outcome jsstring :=
  match fuel with
  | O => RangeError
  | S fuel' =>
      let indentStr := repeat_cu SP (indent * 2) in
      match obj with
      | VArr items => printArray_fuel (print_fuel fuel' cfg) cfg items indent
      | VObj fields =>
          printObject_fuel (print_fuel fuel' cfg) cfg fields indent
      | VUndef => Returned (indentStr ++ js_String obj)
      | _ => Returned (indentStr ++ formatPrimitive cfg obj)
      end
  end.



(** ** Vocabulary of the properties *)

(** The keys of a JavaScript object are distinct. *)
Definition distinct_keys (v : Value) : Prop :=
  match v with
  | VObj fields => NoDup (keys_of fields)
  | _ => True
  end.

Definition same_keys (a b : list jsstring) : Prop :=
  forall k, In k a <-> In k b.

(** The condition of the table layout: a non-empty sequence of records
    whose key sets are all equal to one set with at least one key. *)
Definition uniform_records (arr : list Value) : Prop :=
  arr <> []
  /\ (forall v, In v arr -> exists fields, v = VObj fields)
  /\ (exists K, K <> [] /\ forall v, In v arr -> same_keys (Object_keys v) K).

(** The number of spaces a line starts with. *)
Fixpoint leading_spaces (s : jsstring) : nat :=
  match s with
  | c :: t => if N.eqb c SP then S (leading_spaces t) else 0%nat
  | [] => 0%nat
  end.

End Renderer.

Arguments Value : clear implicits.
Arguments VNull {num}.
Arguments VUndef {num}.
Arguments VStr {num} s.
Arguments VBool {num} b.
Arguments Returned {A} a.
Arguments TypeError {A}.
Arguments RangeError {A}.

(** ** The lines of a table *)

Definition sumZ (l : list Z) : Z := fold_right Z.add 0 l.

(** The pieces [#printTable] binds on its way: the widths, the total width
    and each element pushed on [lines]. *)
Section TableLines.

Context {num : Type}.
Variable num_toString : num -> jsstring.
Variable cfg : Config.

Definition table_widths (arr : list (Value num)) : list (jsstring * Z) :=
  compute_widths num_toString cfg arr (firstKeys arr).

Definition table_totalWidth (arr : list (Value num)) : option Z :=
  option_map (fun sum => sum + 2)
    (fold_left (fun sum k => add_width sum (get_width (table_widths arr) k))
       (firstKeys arr) (Some (-3))).

Definition table_top (arr : list (Value num)) (indent : nat) : jsstring :=
  repeat_cu SP (indent * 2) ++ [box_tl]
    ++ repeat_to box_h (table_totalWidth arr) ++ [box_tr].

Definition header_cell (arr : list (Value num)) (key : jsstring) : jsstring :=
  lit " " ++ esc "[1m" ++ padEnd_to key (get_width (table_widths arr) key)
    ++ esc "[0m" ++ lit " ".

Definition table_header (arr : list (Value num)) (indent : nat) : jsstring :=
  repeat_cu SP (indent * 2) ++ [box_v]
    ++ join [box_v] (map (header_cell arr) (firstKeys arr)) ++ [box_v].

Definition table_rule (arr : list (Value num)) (key : jsstring) : jsstring :=
  repeat_to box_h
    (option_map (fun w => w + 2) (get_width (table_widths arr) key)).

Definition table_separator (arr : list (Value num)) (indent : nat)
  : jsstring :=
  repeat_cu SP (indent * 2) ++ [box_l]
    ++ join [box_t] (map (table_rule arr) (firstKeys arr)) ++ [box_r].

Definition row_cell (arr : list (Value num)) (row : Value num)
  (key : jsstring) : jsstring :=
  lit " "
    ++ cell_at num_toString cfg row key (get_width (table_widths arr) key)
    ++ lit " ".

Definition table_row (arr : list (Value num)) (indent : nat)
  (row : Value num) : jsstring :=
  repeat_cu SP (indent * 2) ++ [box_v]
    ++ join [box_v] (map (row_cell arr row) (firstKeys arr)) ++ [box_v].

Definition table_bottom (arr : list (Value num)) (indent : nat) : jsstring :=
  repeat_cu SP (indent * 2) ++ [box_bl]
    ++ join [box_b] (map (table_rule arr) (firstKeys arr)) ++ [box_br].

(** The array [lines] at the [return] of [#printTable]. *)
Definition table_lines (arr : list (Value num)) (indent : nat)
  : list jsstring :=
  [table_top arr indent; table_header arr indent; table_separator arr indent]
    ++ map (table_row arr indent) arr ++ [table_bottom arr indent].

(** The total width when every width read is the computed number, and the
    length the three border lines then have (see [border_lengths]). *)
Definition numeric_totalWidth (arr : list (Value num)) : Z :=
  sumZ (map (fun k => col_width num_toString cfg arr k + 3) (firstKeys arr))
    - 1.

Definition border_length (arr : list (Value num)) (indent : nat) : Z :=
  2 * Z.of_nat indent + numeric_totalWidth arr + 2.

(** A cell of visible width [w]: a space, a sequence with parameters, a
    body of [w] units without escape unit, the reset and a space. *)
Definition clean_cell (x : jsstring) (w : Z) : Prop :=
  exists params body,
    forallb is_param params = true
    /\ find_cu ESC body = None
    /\ len body = w
    /\ x = SP :: ESC :: 91%N :: params ++ 109%N :: body ++ esc "[0m" ++ [SP].

(** A cell value whose formatted text is a colored span around a text
    without escape unit and without line break. *)
Definition clean_scalar (v : Value num) : Prop :=
  match v with
  | VStr s => find_cu ESC s = None /\ find_cu NL s = None
  | VNum x =>
      find_cu ESC (num_toString x) = None /\ find_cu NL (num_toString x) = None
  | VBool _ | VNull => True
  | _ => False
  end.

(** Two rows that hold the same value under every key. *)
Definition same_properties (r r' : Value num) : Prop :=
  forall key, prop r key = prop r' key.

(** A row and the same row with its entries in another order. *)
Definition reordered (r r' : Value num) : Prop :=
  exists f f', r = VObj f /\ r' = VObj f'
               /\ NoDup (keys_of f) /\ Permutation f f'.

End TableLines.

(** ** The callers of sqlite-admin.js *)

Section Callers.

Context {num : Type}.

(** [tables.map(name => ({ table_name: name }))] of the query loop. *)
Definition tableData (tables : list jsstring) : list (Value num) :=
  map (fun name => VObj [(lit "table_name", VStr name)]) tables.

End Callers.

(** [WhiteSpace] and [LineTerminator] code units, what [trim] removes. *)
Definition is_js_space (c : cu) : bool :=
  existsb (N.eqb c)
    [9; 10; 11; 12; 13; 32; 160; 5760; 8232; 8233; 8239; 8287; 12288;
     65279]%N
  || ((8192 <=? c)%N && (c <=? 8202)%N).

Fixpoint trimStart (s : jsstring) : jsstring :=
  match s with
  | c :: t => if is_js_space c then trimStart t else s
  | [] => []
  end.

(** [str.trim()] *)
Definition trim (s : jsstring) : jsstring :=
  List.rev (trimStart (List.rev (trimStart s))).

Definition is_quote (c : cu) : bool := N.eqb c 34%N || N.eqb c 39%N.

(** [str.replace(/^["']|["']$/g, '')]: the first alternative can only
    match at index 0 and the second only at the last index, and the scan
    resumes after a match, so a quote at the start is dropped and then a
    quote at the end of what is left. *)
Definition strip_quotes (s : jsstring) : jsstring :=
  let rest :=
    match s with
    | c :: t => if is_quote c then t else s
    | [] => []
    end in
  match List.rev rest with
  | c :: r => if is_quote c then List.rev r else rest
  | [] => rest
  end.

(** [dbPath.trim().replace(/^["']|["']$/g, '')], lines 121 and 139 of
    sqlite-admin.js. *)
Definition clean_path (dbPath : jsstring) : jsstring :=
  strip_quotes (trim dbPath).

(** ** Induction over values *)

(** The induction hypothesis holds for every element of an array and for
    every property value of an object. *)
Section ValueInduction.

Context {num : Type}.
Variable P : Value num -> Prop.
Hypothesis P_null : P VNull.
Hypothesis P_str : forall s, P (VStr s).
Hypothesis P_num : forall x, P (VNum x).
Hypothesis P_bool : forall b, P (VBool b).
Hypothesis P_undef : P VUndef.
Hypothesis P_arr : forall items, Forall P items -> P (VArr items).
Hypothesis P_obj :
  forall fields, Forall (fun kv => P (snd kv)) fields -> P (VObj fields).


End ValueInduction.

(** ** Concrete inputs *)

(** The numbers of the examples are integers, printed in decimal. *)
Definition hello_world : jsstring := lit "hello" ++ [NL] ++ lit "world".
Definition two_lines : jsstring := lit "ab" ++ [NL] ++ lit "cd".
Definition sixty_a : jsstring := repeat_cu 97%N 60.
Definition long_key : jsstring := repeat_cu 107%N 51.

Definition annotating_config : Config :=
  {| max_prim_length := Some 30; discourage_multiline := true |}.
Definition four_units_config : Config :=
  {| max_prim_length := Some 4; discourage_multiline := false |}.

Definition xy_rows : list (Value Z) :=
  [ VObj [(lit "x", VNum 1); (lit "y", VNum 2)];
    VObj [(lit "y", VNum 4); (lit "x", VNum 3)] ].

Definition two_lines_row : Value Z := VObj [(lit "a", VStr two_lines)].

Definition nested_value : Value Z :=
  VObj [(lit "user", VStr (lit "Alice"));
        (lit "tags", VArr [VStr (lit "admin"); VArr [VNum 1; VNull]])].

Definition yx_rows : list (Value Z) :=
  [ VObj [(lit "x", VNum 1); (lit "y", VNum 2)];
    VObj [(lit "x", VNum 3); (lit "y", VNum 4)] ].

Definition table_names : list jsstring :=
  [lit "users"; lit "room_data"; lit "room_members"].

Definition status_record : list (jsstring * Value Z) :=
  [(lit "user", VStr (lit "Alice")); (lit "age", VNum 30);
   (lit "active", VBool true); (lit "score", VNull)].

Definition tags : list (Value Z) :=
  [VStr (lit "admin"); VStr (lit "beta"); VNum 7].


(** [[{a: "hello", __proto__: "xyz"}]], as [JSON.parse] gives it: the row
    has an own property named [__proto__]. *)
Definition proto_rows : list (Value Z) :=
  [VObj [(lit "a", VStr (lit "hello")); (proto_key, VStr (lit "xyz"))]].

(** * Properties *)

(** ** Facts about strings *)

Section StringFacts.

Lemma len_nonneg (s : jsstring) : 0 <= len s.
Proof. unfold len; lia. Qed.

Lemma len_app (a b : jsstring) : len (a ++ b) = len a + len b.
Proof. unfold len; rewrite length_app; lia. Qed.

Lemma len_repeat (c : cu) (n : nat) : len (repeat_cu c n) = Z.of_nat n.
Proof. unfold len, repeat_cu; now rewrite repeat_length. Qed.

Lemma slice0_prefix (s : jsstring) (e : Z) :
  0 <= e <= len s -> slice0 s e = firstn (Z.to_nat e) s.
Proof.
  intros He; unfold slice0.
  destruct (e <? 0) eqn:E; [apply Z.ltb_lt in E; lia|].
  now rewrite Z.min_l by lia.
Qed.

Lemma len_slice0 (s : jsstring) (e : Z) :
  0 <= e <= len s -> len (slice0 s e) = e.
Proof.
  intros He; rewrite slice0_prefix by assumption.
  unfold len in *; rewrite length_firstn; lia.
Qed.

(** A negative end leaves all but the last [-e] units. *)
Lemma len_slice0_neg (s : jsstring) (e : Z) :
  e < 0 -> len (slice0 s e) = Z.max (len s + e) 0.
Proof.
  intros He; unfold slice0.
  destruct (e <? 0) eqn:E; [|apply Z.ltb_ge in E; lia].
  pose proof (len_nonneg s).
  unfold len in *; rewrite length_firstn; lia.
Qed.

Lemma find_cu_lt c s i : find_cu c s = Some i -> (i < length s)%nat.
Proof.
  revert i; induction s as [|x t IH]; simpl; intros i H; [discriminate|].
  destruct (N.eqb x c).
  - injection H as <-; lia.
  - destruct (find_cu c t) as [j|]; [|discriminate].
    injection H as <-; specialize (IH j eq_refl); lia.
Qed.

Lemma find_cu_firstn_None c s k :
  find_cu c s = None -> find_cu c (firstn k s) = None.
Proof.
  revert k; induction s as [|x t IH]; intros [|k]; simpl; auto.
  destruct (N.eqb x c); [discriminate|].
  destruct (find_cu c t) eqn:E; [discriminate|].
  intros _; now rewrite IH.
Qed.

Lemma find_cu_firstn_before c s i k :
  find_cu c s = Some i -> (k <= i)%nat -> find_cu c (firstn k s) = None.
Proof.
  revert i k; induction s as [|x t IH]; intros i [|k]; simpl; auto.
  destruct (N.eqb x c).
  - intros [= <-] Hk; lia.
  - destruct (find_cu c t) as [j|] eqn:E; [|discriminate].
    intros [= <-] Hk. rewrite (IH j k); auto; lia.
Qed.

Lemma find_cu_app_None c a b :
  find_cu c a = None -> find_cu c b = None -> find_cu c (a ++ b) = None.
Proof.
  induction a as [|x t IH]; simpl; auto.
  destruct (N.eqb x c); [discriminate|].
  destruct (find_cu c t); [discriminate|].
  intros _ Hb; now rewrite IH.
Qed.

Lemma endsWith_snoc c a x : endsWith c (a ++ [x]) = N.eqb x c.
Proof. unfold endsWith; now rewrite rev_app_distr. Qed.

(** The unit at the index [indexOf] returns is the needle: the slice that
    stops right after it ends with it. *)
Lemma find_cu_endsWith c s i :
  find_cu c s = Some i -> endsWith c (firstn (S i) s) = true.
Proof.
  revert i; induction s as [|x t IH]; simpl; intros i H; [discriminate|].
  destruct (N.eqb x c) eqn:E.
  - injection H as <-. simpl. unfold endsWith; simpl. exact E.
  - destruct (find_cu c t) as [j|] eqn:F; [|discriminate].
    injection H as <-. specialize (IH j eq_refl).
    change (endsWith c (x :: firstn (S j) t) = true).
    destruct (firstn (S j) t) as [|y r] eqn:G; [discriminate IH|].
    unfold endsWith in *. simpl in *.
    destruct (List.rev r ++ [y]) eqn:R.
    + destruct (List.rev r); discriminate.
    + simpl. exact IH.
Qed.

Lemma indexOf_None c s : find_cu c s = None -> indexOf c s = -1.
Proof. unfold indexOf; now intros ->. Qed.

Lemma indexOf_Some c s i : find_cu c s = Some i -> indexOf c s = Z.of_nat i.
Proof. unfold indexOf; now intros ->. Qed.

Lemma str_eqb_eq a b : str_eqb a b = true <-> a = b.
Proof.
  revert b; induction a as [|x a IH]; intros [|y b]; simpl;
    try (split; (reflexivity || discriminate)).
  rewrite andb_true_iff, N.eqb_eq, IH.
  split; [intros [-> ->]; reflexivity|intros [= -> ->]; auto].
Qed.

End StringFacts.

(** ** Facts about [#truncate] *)

Section TruncateFacts.

Variable cfg : Config.

Lemma limit_or_length_nonneg s m : 0 <= limit_or_length s m.
Proof.
  unfold limit_or_length, no_limit. pose proof (len_nonneg s).
  destruct m as [x|]; [|lia].
  destruct (x =? 0) eqn:E0, (x <? 0) eqn:E1; simpl; lia.
Qed.

Lemma limit_or_length_limited s m :
  no_limit (Some m) = false -> limit_or_length s (Some m) = m /\ 0 < m.
Proof.
  unfold limit_or_length. intros H; rewrite H. split; [reflexivity|].
  simpl in H. apply orb_false_elim in H as [H0 H1].
  apply Z.eqb_neq in H0. apply Z.ltb_ge in H1. lia.
Qed.

(** The three ways the effective maximum comes about. *)
Lemma effective_max_cases s m :
  (find_cu NL s = None /\ effective_max s m = limit_or_length s m)
  \/ (exists i, find_cu NL s = Some i /\ Z.of_nat i < limit_or_length s m
                /\ effective_max s m = Z.of_nat i)
  \/ (exists i, find_cu NL s = Some i /\ limit_or_length s m <= Z.of_nat i
                /\ effective_max s m = limit_or_length s m).
Proof.
  unfold effective_max, indexOf.
  destruct (find_cu NL s) as [i|] eqn:F.
  - replace (Z.of_nat i =? -1) with false by (symmetry; apply Z.eqb_neq; lia).
    simpl. destruct (Z.of_nat i <? limit_or_length s m) eqn:L.
    + apply Z.ltb_lt in L. right; left; exists i; auto.
    + apply Z.ltb_ge in L. right; right; exists i; auto.
  - left; auto.
Qed.

Lemma effective_max_nonneg s m : 0 <= effective_max s m.
Proof.
  pose proof (limit_or_length_nonneg s m).
  destruct (effective_max_cases s m) as [[_ E]|[(i & _ & _ & E)|(i & _ & _ & E)]];
    lia.
Qed.

Lemma effective_max_le_limit s m : effective_max s m <= limit_or_length s m.
Proof.
  destruct (effective_max_cases s m) as [[_ E]|[(i & _ & L & E)|(i & _ & _ & E)]];
    lia.
Qed.

(** No line break lies before the effective maximum. *)
Lemma no_break_before_effective_max s m k :
  Z.of_nat k <= effective_max s m -> find_cu NL (firstn k s) = None.
Proof.
  intros Hk.
  destruct (effective_max_cases s m)
    as [[F _]|[(i & F & _ & E)|(i & F & L & E)]].
  - now apply find_cu_firstn_None.
  - apply (find_cu_firstn_before _ _ i); [assumption|lia].
  - apply (find_cu_firstn_before _ _ i); [assumption|lia].
Qed.

(** Line 62: a text at or under the effective maximum is returned as is. *)
Lemma truncate_fits s m :
  len s <= effective_max s m -> truncate cfg s m = s.
Proof.
  intros H; unfold truncate.
  now replace (len s <=? effective_max s m) with true
    by (symmetry; apply Z.leb_le; assumption).
Qed.

(** Line 68: the compact style. *)
Lemma truncate_compact s m :
  effective_max s m < len s ->
  discourage_multiline cfg = false \/ effective_max s m <= 24 ->
  truncate cfg s m = slice0 s (effective_max s m - 3) ++ lit "...".
Proof.
  intros H Hc; unfold truncate.
  replace (len s <=? effective_max s m) with false
    by (symmetry; apply Z.leb_gt; assumption).
  destruct Hc as [-> | Hc]; [now rewrite andb_false_r|].
  now replace (24 <? effective_max s m) with false
    by (symmetry; apply Z.ltb_ge; assumption).
Qed.

Lemma find_cu_dots : find_cu NL (lit "...") = None.
Proof. reflexivity. Qed.

(** With an effective maximum of at least 3 the compact result keeps
    [e - 3] units, has length [e] and holds no line break. *)
Lemma truncate_compact_shape s m :
  let e := effective_max s m in
  3 <= e < len s ->
  discourage_multiline cfg = false \/ e <= 24 ->
  truncate cfg s m = firstn (Z.to_nat (e - 3)) s ++ lit "..."
  /\ len (truncate cfg s m) = e
  /\ find_cu NL (truncate cfg s m) = None.
Proof.
  cbv zeta; intros He Hc.
  rewrite truncate_compact by (lia || assumption).
  rewrite slice0_prefix by lia.
  split; [reflexivity|split].
  - rewrite len_app. unfold len at 1. rewrite length_firstn.
    change (len (lit "...")) with 3. unfold len in He. lia.
  - apply find_cu_app_None; [|apply find_cu_dots].
    apply (no_break_before_effective_max s m). lia.
Qed.

End TruncateFacts.

(** ** The truncator: claims C4, C5 and C6 *)

Section TruncateClaims.

Variable cfg : Config.

Lemma indexOf_found c s idx :
  indexOf c s = idx -> 0 <= idx -> find_cu c s = Some (Z.to_nat idx).
Proof.
  unfold indexOf. destruct (find_cu c s) as [i|]; intros <- H; [|lia].
  now rewrite Nat2Z.id.
Qed.

Lemma limit_or_length_unlimited s m :
  no_limit m = true -> limit_or_length s m = len s.
Proof. unfold limit_or_length; now intros ->. Qed.

Lemma limit_or_length_same s t m :
  no_limit m = false -> limit_or_length t m = limit_or_length s m.
Proof.
  destruct m; [|discriminate]. unfold limit_or_length; now intros ->.
Qed.

Lemma effective_max_no_break s m :
  find_cu NL s = None -> effective_max s m = limit_or_length s m.
Proof.
  intros F.
  destruct (effective_max_cases s m) as [[_ E]|[(i & G & _)|(i & G & _)]];
    congruence.
Qed.

(** For a text without line break and a maximum of 3 or more that the text
    exceeds, the compact style returns exactly [m] units, the last three
    being the ellipsis. *)
Lemma truncate_compact_exact s m :
  find_cu NL s = None ->
  3 <= m < len s ->
  discourage_multiline cfg = false \/ m <= 24 ->
  truncate cfg s (Some m) = firstn (Z.to_nat (m - 3)) s ++ lit "..."
  /\ len (truncate cfg s (Some m)) = m.
Proof.
  intros F Hm Hc.
  assert (N : no_limit (Some m) = false).
  { simpl. apply orb_false_intro; [apply Z.eqb_neq|apply Z.ltb_ge]; lia. }
  assert (E : effective_max s (Some m) = m).
  { rewrite effective_max_no_break by assumption.
    now apply limit_or_length_limited. }
  destruct (truncate_compact_shape cfg s (Some m)) as (T & L & _);
    rewrite ?E; auto.
  rewrite E in T, L. now split.
Qed.

(** At a maximum of 1 or 2 the end of the slice is negative: all but the
    last [3 - m] units are kept and the result is longer than the maximum. *)
Lemma truncate_small_maximum_length s m :
  find_cu NL s = None ->
  1 <= m <= 2 -> m < len s ->
  truncate cfg s (Some m) = slice0 s (m - 3) ++ lit "..."
  /\ len (truncate cfg s (Some m)) = Z.max (len s + (m - 3)) 0 + 3
  /\ m < len (truncate cfg s (Some m)).
Proof.
  intros F Hm Hl.
  assert (N : no_limit (Some m) = false).
  { simpl. apply orb_false_intro; [apply Z.eqb_neq|apply Z.ltb_ge]; lia. }
  assert (E : effective_max s (Some m) = m).
  { rewrite effective_max_no_break by assumption.
    now apply limit_or_length_limited. }
  rewrite truncate_compact by (rewrite E; (lia || (right; lia))).
  rewrite E, len_app, len_slice0_neg by lia.
  change (len (lit "...")) with 3. repeat split; lia.
Qed.

(** C4: at a maximum below the length of the ellipsis the end of the slice,
    [maxLen - 3], is negative and counts from the end of the text: with
    maximum 1 the six units of [abcdef] give the seven units [abcd...],
    and the two units of [ab] give the three units of the ellipsis; with
    maximum 2, [abcdef] gives [abcde...]. *)
Theorem truncate_below_ellipsis_length :
  slice0 (lit "abcdef") (1 - 3) = lit "abcd"
  /\ truncate default_config (lit "abcdef") (Some 1) = lit "abcd..."
  /\ len (truncate default_config (lit "abcdef") (Some 1)) = 7
  /\ truncate default_config (lit "ab") (Some 1) = lit "..."
  /\ truncate default_config (lit "abcdef") (Some 2) = lit "abcde...".
Proof. repeat split. Qed.

(** C5: a line break at index [idx] before the limit makes [idx] the
    effective maximum.  When [idx] is 3 or more and the flag is unset or
    [idx] is at most 24, the result is the first [idx - 3] units of the
    first line followed by the ellipsis, [idx] units in all; when the flag
    is set and [idx] is above 24, it is the first [idx - 21] units followed
    by a space, the reset and the annotation with the count of the units
    from index [idx] on. *)
Theorem truncate_at_line_break s m idx :
  indexOf NL s = idx -> 0 <= idx -> idx < limit_or_length s m ->
  effective_max s m = idx
  /\ (3 <= idx -> discourage_multiline cfg = false \/ idx <= 24 ->
      truncate cfg s m = firstn (Z.to_nat (idx - 3)) s ++ lit "..."
      /\ len (truncate cfg s m) = idx)
  /\ (24 < idx -> discourage_multiline cfg = true ->
      truncate cfg s m =
        firstn (Z.to_nat (idx - 21)) s ++ lit " " ++ esc "[0m(multi-line "
          ++ int_toString (len s - idx) ++ lit " more...)").
Proof.
  intros Hi H0 Hlt.
  pose proof (indexOf_found _ _ _ Hi H0) as F.
  pose proof (find_cu_lt _ _ _ F) as Flt.
  assert (E : effective_max s m = idx).
  { destruct (effective_max_cases s m)
      as [[G _]|[(i & G & _ & E)|(i & G & L & _)]].
    - congruence.
    - rewrite E. assert (i = Z.to_nat idx) by congruence. lia.
    - assert (i = Z.to_nat idx) by congruence. lia. }
  assert (Hlen : idx < len s) by (unfold len; lia).
  split; [exact E|split].
  - intros H3 Hc.
    destruct (truncate_compact_shape cfg s m) as (T & L & _);
      rewrite ?E; auto.
    rewrite E in T, L. now split.
  - intros H24 Hd. unfold truncate. rewrite E, Hd.
    replace (len s <=? idx) with false by (symmetry; apply Z.leb_gt; lia).
    replace (24 <? idx) with true by (symmetry; apply Z.ltb_lt; lia).
    simpl andb. cbv iota.
    rewrite (slice0_prefix s (idx + 1)) by lia.
    replace (Z.to_nat (idx + 1)) with (S (Z.to_nat idx)) by lia.
    rewrite (find_cu_endsWith _ _ _ F).
    now rewrite slice0_prefix by lia.
Qed.

(** C6: a text at or under the effective maximum is returned unchanged in
    either style, and truncating twice with the same maximum gives the
    result of truncating once whenever the first call returns the text
    unchanged or cuts it in the compact style at an effective maximum of 3
    or more. *)
Theorem truncate_idempotent_compact s m :
  len s <= effective_max s m
  \/ (3 <= effective_max s m
      /\ (discourage_multiline cfg = false \/ effective_max s m <= 24)) ->
  truncate cfg (truncate cfg s m) m = truncate cfg s m
  /\ (len s <= effective_max s m -> truncate cfg s m = s).
Proof.
  intros H. split; [|apply truncate_fits].
  destruct (Z_le_gt_dec (len s) (effective_max s m)) as [Hfit|Hcut].
  - rewrite (truncate_fits cfg s m Hfit). now apply truncate_fits.
  - destruct H as [H|[H3 Hc]]; [lia|].
    destruct (truncate_compact_shape cfg s m) as (_ & L & F); auto; [lia|].
    apply truncate_fits.
    rewrite (effective_max_no_break _ _ F), L.
    destruct (no_limit m) eqn:N.
    + rewrite limit_or_length_unlimited by assumption. lia.
    + rewrite (limit_or_length_same s) by assumption.
      apply effective_max_le_limit.
Qed.

End TruncateClaims.

(** ** Choice of the layout of an array: claim C1 *)

Section ArrayLayout.

Context {num : Type}.
Variable num_toString : num -> jsstring.
Variable cfg : Config.

Lemma includes_In l k : includes l k = true <-> In k l.
Proof.
  unfold includes. rewrite existsb_exists. split.
  - intros (x & Hx & E). apply str_eqb_eq in E. now subst.
  - intros H. exists k. split; [assumption|now apply str_eqb_eq].
Qed.

Lemma is_object_VObj (v : Value num) :
  is_object v = true <-> exists fields, v = VObj fields.
Proof.
  split.
  - destruct v; try discriminate. intros _. now eexists.
  - now intros (f & ->).
Qed.

(** Equal length and inclusion make equal key sets when keys are distinct,
    and conversely. *)
Lemma same_shape_same_keys (keys first : list jsstring) :
  NoDup keys -> NoDup first ->
  ((length keys =? length first)%nat
     && forallb (fun k => includes first k) keys = true
   <-> same_keys keys first).
Proof.
  intros Nk Nf. rewrite andb_true_iff, Nat.eqb_eq, forallb_forall. split.
  - intros [L I].
    assert (Inc : incl keys first)
      by (intros k Hk; apply includes_In; now apply I).
    intros k; split; [apply Inc|].
    apply (NoDup_length_incl Nk); [lia|assumption].
  - intros S. split.
    + apply Nat.le_antisymm; apply NoDup_incl_length; try assumption;
        intros k Hk; now apply S.
    + intros k Hk. apply includes_In. now apply S.
Qed.

Lemma table_mode_uniform (arr : list (Value num)) :
  Forall distinct_keys arr ->
  (table_mode arr = true <-> uniform_records arr).
Proof.
  intros WF. unfold table_mode, uniform_records.
  destruct arr as [|first rest].
  { simpl. split; [discriminate|]. now intros [H _]. }
  assert (Nf : forall f, first = VObj f -> NoDup (firstKeys (first :: rest))).
  { intros f ->. now inversion WF. }
  rewrite Forall_forall in WF.
  replace (0 <? length (first :: rest))%nat with true by reflexivity.
  rewrite andb_true_r.
  destruct (allObjects (first :: rest)) eqn:AO; unfold allObjects in AO.
  - rewrite forallb_forall in AO.
    assert (Obj : forall v, In v (first :: rest) -> exists f, v = VObj f)
      by (intros v Hv; apply is_object_VObj; now apply AO).
    destruct (Obj first (or_introl eq_refl)) as (f0 & E0).
    specialize (Nf f0 E0).
    assert (Shape : forall v, In v (first :: rest) ->
              ((length (Object_keys v) =? length (firstKeys (first :: rest)))%nat
                 && forallb (fun k => includes (firstKeys (first :: rest)) k)
                      (Object_keys v) = true
               <-> same_keys (Object_keys v) (firstKeys (first :: rest)))).
    { intros v Hv. apply same_shape_same_keys; [|assumption].
      destruct (Obj v Hv) as (f & ->). exact (WF _ Hv). }
    rewrite andb_true_iff. unfold allSameShape. rewrite forallb_forall.
    rewrite Nat.ltb_lt. split.
    + intros [S L]. split; [discriminate|split; [assumption|]].
      exists (firstKeys (first :: rest)). split.
      * intros E; rewrite E in L; simpl in L; lia.
      * intros v Hv. apply Shape; auto.
    + intros (_ & _ & K & KN & HK).
      assert (SF : same_keys (firstKeys (first :: rest)) K)
        by (apply (HK first); now left).
      split.
      * intros v Hv. apply Shape; [assumption|].
        intros k. rewrite (HK v Hv k). symmetry. apply SF.
      * destruct (firstKeys (first :: rest)) as [|k0 ks] eqn:FK;
          [|simpl; lia].
        destruct K as [|k K]; [congruence|].
        exfalso. apply (SF k). now left.
  - split; [discriminate|]. intros (_ & Obj & _). exfalso.
    assert (forallb is_object (first :: rest) = true); [|congruence].
    apply forallb_forall. intros v Hv. apply is_object_VObj. now apply Obj.
Qed.

(** C1: for an array whose objects have distinct keys, the table branch is
    taken iff the array is non-empty, made of records, and all key sets
    equal one set with at least one key; then the array is printed by
    [#printTable].  A non-empty array failing the condition is the vertical
    list of its elements printed at the next indent, and the empty array is
    the literal [[]] at the current indent. *)
Theorem array_layout (arr : list (Value num)) (indent : nat) :
  Forall distinct_keys arr ->
  (table_mode arr = true <-> uniform_records arr)
  /\ (uniform_records arr ->
      print num_toString cfg (VArr arr) indent
        = printTable num_toString cfg arr indent)
  /\ (arr <> [] -> ~ uniform_records arr ->
      print num_toString cfg (VArr arr) indent
        = join [NL]
            (map (fun item => print num_toString cfg item (indent + 1)%nat)
               arr))
  /\ print num_toString cfg (VArr []) indent
       = repeat_cu SP (indent * 2) ++ lit "[]".
Proof.
  intros WF. pose proof (table_mode_uniform arr WF) as TM.
  split; [exact TM|split; [|split]].
  - intros U. apply TM in U. simpl. unfold printArray.
    destruct arr as [|v r]; [discriminate U|]. simpl length.
    now rewrite U.
  - intros NE NU. simpl. unfold printArray.
    destruct arr as [|v r]; [congruence|]. simpl length.
    destruct (table_mode (v :: r)) eqn:T; [exfalso; apply NU, TM, eq_refl|].
    reflexivity.
  - reflexivity.
Qed.

End ArrayLayout.

(** ** Column widths and cells of a table: claims C2 and C3 *)

Section TableFacts.

Context {num : Type}.
Variable num_toString : num -> jsstring.
Variable cfg : Config.

Lemma Math_max_ge_first (first : Z) (rest : list Z) :
  first <= Math_max first rest.
Proof.
  unfold Math_max. revert first.
  induction rest as [|x r IH]; simpl; intros first; [lia|].
  specialize (IH (Z.max first x)). lia.
Qed.

Lemma Math_max_ge_each (first : Z) (rest : list Z) (x : Z) :
  In x rest -> x <= Math_max first rest.
Proof.
  unfold Math_max. revert first.
  induction rest as [|y r IH]; simpl; intros first; [tauto|].
  intros [->|H].
  - pose proof (Math_max_ge_first (Z.max first x) r).
    unfold Math_max in *. lia.
  - now apply IH.
Qed.

(** The width of a column lies between the header length capped at 50
    and 50. *)
Lemma col_width_bounds (arr : list (Value num)) (key : jsstring) :
  Z.min (len key) 50 <= col_width num_toString cfg arr key <= 50.
Proof.
  unfold col_width.
  match goal with |- context [Math_max ?a ?l] =>
    pose proof (Math_max_ge_first a l) end.
  lia.
Qed.

(** The width of a column is at least the plain length of each of its cells
    capped at 50. *)
Lemma col_width_covers_cell (arr : list (Value num)) (key : jsstring) row :
  In row arr ->
  Z.min (len (stripColors (formatPrimitive num_toString cfg (prop row key)))) 50
    <= col_width num_toString cfg arr key.
Proof.
  intros Hr. unfold col_width.
  match goal with |- context [Math_max ?a ?l] =>
    assert (len (stripColors (formatPrimitive num_toString cfg (prop row key)))
              <= Math_max a l) end.
  { apply Math_max_ge_each.
    apply (in_map (fun row =>
             len (stripColors (formatPrimitive num_toString cfg (prop row key))))).
    exact Hr. }
  lia.
Qed.

Lemma get_set_own widths key w k :
  get_own (set_own widths key w) k
    = if str_eqb key k then Some w else get_own widths k.
Proof.
  induction widths as [|[k0 x] rest IH]; simpl.
  - reflexivity.
  - destruct (str_eqb k0 key) eqn:E; simpl.
    + apply str_eqb_eq in E. subst k0. now destruct (str_eqb key k).
    + destruct (str_eqb k0 k) eqn:F; [|exact IH].
      destruct (str_eqb key k) eqn:G; [|reflexivity].
      apply str_eqb_eq in F, G. subst.
      assert (str_eqb k k = true) by now apply str_eqb_eq.
      congruence.
Qed.

Lemma str_eqb_neq a b : a <> b -> str_eqb a b = false.
Proof.
  intros H. destruct (str_eqb a b) eqn:E; [|reflexivity].
  apply str_eqb_eq in E. contradiction.
Qed.

(** Reading a key other than [__proto__] after an assignment. *)
Lemma get_set_width widths key w k :
  k <> proto_key ->
  get_width (set_width widths key w) k
    = if str_eqb key k then Some w else get_width widths k.
Proof.
  intros Hk. unfold get_width, set_width.
  rewrite (str_eqb_neq k proto_key Hk).
  destruct (str_eqb key proto_key) eqn:E; [|apply get_set_own].
  apply str_eqb_eq in E. subst key.
  now rewrite (str_eqb_neq proto_key k) by congruence.
Qed.

(** Reading [__proto__] never gives a number. *)
Lemma get_width_proto widths : get_width widths proto_key = None.
Proof. reflexivity. Qed.

(** After the [forEach], reading [widths[key]] for a key of the table other
    than [__proto__] gives the width computed for that key. *)
Lemma get_compute_widths (arr : list (Value num)) (keys : list jsstring) key :
  In key keys -> key <> proto_key ->
  get_width (compute_widths num_toString cfg arr keys) key
    = Some (col_width num_toString cfg arr key).
Proof.
  intros H Hk. revert H. unfold compute_widths.
  induction keys as [|k ks IH] using rev_ind; [intros []|].
  rewrite fold_left_app. simpl. rewrite get_set_width by assumption.
  destruct (str_eqb k key) eqn:E.
  - apply str_eqb_eq in E. now subst.
  - intros H. apply in_app_or in H as [H|[->|[]]]; [now apply IH|].
    assert (str_eqb key key = true) by now apply str_eqb_eq.
    congruence.
Qed.

Lemma strip_from_cons (k : nat) (c : cu) (t : jsstring) :
  strip_from k (c :: t)
  = match k with
    | S k' => strip_from k' t
    | O => match sgr_len (c :: t) with
           | Some n => strip_from (Nat.pred n) t
           | None => c :: strip_from 0 t
           end
    end.
Proof. reflexivity. Qed.

(** Dropping escape sequences never lengthens a text. *)
Lemma len_strip_from (k : nat) (s : jsstring) :
  len (strip_from k s) <= len s.
Proof.
  revert k. induction s as [|c t IH]; intros k; [reflexivity|].
  rewrite strip_from_cons.
  assert (L : len (c :: t) = len t + 1) by (unfold len; simpl length; lia).
  destruct k as [|k]; [destruct (sgr_len (c :: t)) as [n|]|].
  - specialize (IH (Nat.pred n)). lia.
  - specialize (IH 0%nat).
    assert (len (c :: strip_from 0 t) = len (strip_from 0 t) + 1)
      by (unfold len; simpl length; lia).
    lia.
  - specialize (IH k). lia.
Qed.

(** A cell whose plain text holds no line break fits its column in the
    compact style: the text handed to [padEnd] is at most as long as the
    width, and the padded text has exactly the width. *)
Lemma plain_cell_fits_column (arr : list (Value num)) (key : jsstring) row :
  In row arr ->
  discourage_multiline cfg = false ->
  let width := col_width num_toString cfg arr key in
  let plain :=
    stripColors (formatPrimitive num_toString cfg (prop row key)) in
  find_cu NL plain = None ->
  len (stripColors (truncate cfg plain (Some width))) <= width
  /\ len (padEnd (stripColors (truncate cfg plain (Some width))) width)
     = width.
Proof.
  intros Hr Hd width plain F.
  pose proof (col_width_covers_cell arr key row Hr) as Hc.
  pose proof (col_width_bounds arr key) as Hb.
  pose proof (len_nonneg key) as Hk.
  fold plain in Hc. fold width in Hc, Hb.
  assert (L : len (truncate cfg plain (Some width)) <= width).
  { destruct (Z_le_gt_dec (len plain) width) as [Hfit|Hcut].
    - rewrite truncate_fits; [assumption|].
      rewrite effective_max_no_break by assumption.
      unfold limit_or_length. destruct (no_limit (Some width)); lia.
    - destruct (truncate_compact_exact cfg plain width) as (_ & E);
        auto; lia. }
  pose proof (len_strip_from 0 (truncate cfg plain (Some width))) as S.
  fold (stripColors (truncate cfg plain (Some width))) in S.
  split; [lia|].
  unfold padEnd. rewrite len_app, len_repeat. lia.
Qed.

(** C2: the width computed for a column is at most 50 and at least the
    header length capped at 50, so at least the header length whenever the
    key has at most 50 units.  It is what is read back from [widths] for
    every key of the table but [__proto__], whose assignment the object
    ignores and whose read gives no number. *)
Theorem column_width_bounds (arr : list (Value num)) (keys : list jsstring)
  (key : jsstring) :
  In key keys ->
  let width := col_width num_toString cfg arr key in
  Z.min (len key) 50 <= width <= 50
  /\ (len key <= 50 -> len key <= width)
  /\ (key <> proto_key ->
      get_width (compute_widths num_toString cfg arr keys) key = Some width)
  /\ get_width (compute_widths num_toString cfg arr keys) proto_key = None.
Proof.
  intros H. cbv zeta.
  pose proof (col_width_bounds arr key).
  repeat split; try lia.
  intros Hk. now apply get_compute_widths.
Qed.

End TableFacts.

(** ** Block layout and scalars: claims C7, C9 and C10 *)

Section BlockFacts.

Context {num : Type}.
Variable num_toString : num -> jsstring.
Variable cfg : Config.

(** The dispatch of [print] on [#getType], as the source writes it. *)
Lemma print_dispatch (obj : Value num) (indent : nat) :
  print num_toString cfg obj indent
  = let indentStr := repeat_cu SP (indent * 2) in
    match getType obj with
    | primitive => indentStr ++ formatPrimitive num_toString cfg obj
    | array =>
        printArray num_toString (print num_toString cfg) cfg
          (match obj with VArr items => items | _ => [] end) indent
    | object =>
        printObject num_toString (print num_toString cfg) cfg
          (match obj with VObj fields => fields | _ => [] end) indent
    | unknown => indentStr ++ js_String num_toString obj
    end.
Proof. destruct obj; reflexivity. Qed.

Lemma leading_spaces_indent (k : nat) (c : cu) (rest : jsstring) :
  c <> SP -> leading_spaces (repeat_cu SP k ++ c :: rest) = k.
Proof.
  intros Hc. induction k as [|k IH]; simpl.
  - destruct (N.eqb c SP) eqn:E; [apply N.eqb_eq in E; contradiction|].
    reflexivity.
  - now rewrite IH.
Qed.

Lemma formatPrimitive_starts_with_escape (v : Value num) :
  getType v = primitive ->
  exists rest, formatPrimitive num_toString cfg v = ESC :: rest.
Proof.
  destruct v as [|s|x|[|]| | |]; try discriminate; intros _;
    simpl; unfold esc; simpl; eexists; reflexivity.
Qed.

Lemma ESC_not_space : ESC <> SP.
Proof. discriminate. Qed.

Lemma indent_two_more (n : nat) :
  lit "  " ++ repeat_cu SP (n * 2) = repeat_cu SP (2 * n + 2).
Proof.
  replace (2 * n + 2)%nat with (S (S (n * 2))) by lia. reflexivity.
Qed.

Lemma join_starts_with (k : nat) (c : cu) (rest : jsstring)
  (lines : list jsstring) :
  exists rest', join [NL] ((repeat_cu SP k ++ c :: rest) :: lines)
                = repeat_cu SP k ++ c :: rest'.
Proof.
  destruct lines as [|l lines].
  - now exists rest.
  - exists (rest ++ [NL] ++ join [NL] (l :: lines)).
    change (join [NL] ((repeat_cu SP k ++ c :: rest) :: l :: lines))
      with ((repeat_cu SP k ++ c :: rest) ++ [NL] ++ join [NL] (l :: lines)).
    now rewrite <- app_assoc.
Qed.

(** C7: at indent [n] a scalar, the empty array and the empty object are
    [2 * n] spaces followed by a text that starts with no space.  A non-empty
    object is its lines joined by line breaks, in the order of its keys: for
    a scalar value one line, [2 * n + 2] spaces, the bold key, a colon, a
    space and the formatted value; for any other value the line of
    [2 * n + 2] spaces, the bold key and a colon, followed by what the call
    at indent [n + 1] returns.  Both lines, and so the printed object, start
    with exactly [2 * n + 2] spaces.  A non-empty array that is not a table
    is what the calls at indent [n + 1] return for its elements, joined by
    line breaks. *)
Theorem block_indentation (n : nat) :
  (forall v, getType v = primitive ->
     print num_toString cfg v n
       = repeat_cu SP (2 * n) ++ formatPrimitive num_toString cfg v
     /\ leading_spaces (print num_toString cfg v n) = (2 * n)%nat)
  /\ print num_toString cfg (VArr []) n = repeat_cu SP (2 * n) ++ lit "[]"
  /\ leading_spaces (print num_toString cfg (VArr []) n) = (2 * n)%nat
  /\ print num_toString cfg (VObj []) n = repeat_cu SP (2 * n) ++ lit "{}"
  /\ leading_spaces (print num_toString cfg (VObj []) n) = (2 * n)%nat
  /\ (forall fields, fields <> [] ->
        print num_toString cfg (VObj fields) n
          = join [NL]
              (flat_map
                 (fun kv =>
                    if is_primitive (snd kv)
                    then [repeat_cu SP (2 * n + 2) ++ esc "[1m" ++ fst kv
                            ++ esc "[0m" ++ lit ": "
                            ++ formatPrimitive num_toString cfg (snd kv)]
                    else [repeat_cu SP (2 * n + 2) ++ esc "[1m" ++ fst kv
                            ++ esc "[0m" ++ lit ":";
                          print num_toString cfg (snd kv) (n + 1)%nat])
                 fields)
        /\ leading_spaces (print num_toString cfg (VObj fields) n)
           = (2 * n + 2)%nat)
  /\ (forall key rest,
        leading_spaces (repeat_cu SP (2 * n + 2) ++ esc "[1m" ++ key ++ rest)
          = (2 * n + 2)%nat)
  /\ (forall items, items <> [] -> table_mode items = false ->
        print num_toString cfg (VArr items) n
          = join [NL]
              (map (fun item => print num_toString cfg item (n + 1)%nat)
                 items)).
Proof.
  assert (L : forall fields, fields <> [] ->
    print num_toString cfg (VObj fields) n
    = join [NL]
        (flat_map
           (fun kv =>
              if is_primitive (snd kv)
              then [repeat_cu SP (2 * n + 2) ++ esc "[1m" ++ fst kv
                      ++ esc "[0m" ++ lit ": "
                      ++ formatPrimitive num_toString cfg (snd kv)]
              else [repeat_cu SP (2 * n + 2) ++ esc "[1m" ++ fst kv
                      ++ esc "[0m" ++ lit ":";
                    print num_toString cfg (snd kv) (n + 1)%nat])
           fields)).
  { intros [|kv r] NE; [congruence|].
    change (print num_toString cfg (VObj (kv :: r)) n)
      with (join [NL]
              (flat_map
                 (object_lines num_toString (print num_toString cfg) cfg n)
                 (kv :: r))).
    f_equal. apply flat_map_ext. intros [key value].
    unfold object_lines, key_value_line, key_line. cbn [fst snd].
    rewrite <- indent_two_more, <- !app_assoc. reflexivity. }
  split; [|split; [|split; [|split; [|split; [|split; [|split]]]]]].
  - intros v Hv. rewrite (Nat.mul_comm 2 n).
    destruct (formatPrimitive_starts_with_escape v Hv) as (rest & E).
    assert (P : print num_toString cfg v n
                = repeat_cu SP (n * 2) ++ formatPrimitive num_toString cfg v)
      by (destruct v; try discriminate; reflexivity).
    split; [exact P|].
    rewrite P, E. apply leading_spaces_indent, ESC_not_space.
  - now rewrite (Nat.mul_comm 2 n).
  - rewrite (Nat.mul_comm 2 n). simpl. unfold printArray. simpl.
    change (lit "[]") with (91%N :: [93%N]).
    apply leading_spaces_indent. discriminate.
  - now rewrite (Nat.mul_comm 2 n).
  - rewrite (Nat.mul_comm 2 n). simpl. unfold printObject. simpl.
    change (lit "{}") with (123%N :: [125%N]).
    apply leading_spaces_indent. discriminate.
  - intros fields NE. split; [now apply L|].
    rewrite (L fields NE). destruct fields as [|[key value] r]; [congruence|].
    cbn [flat_map fst snd].
    destruct (is_primitive value); cbn [app]; unfold esc; cbn [app];
      match goal with
      | |- context [join [NL] ((repeat_cu SP ?k ++ ?c :: ?t) :: ?ls)] =>
          destruct (join_starts_with k c t ls) as (rest' & ->)
      end;
      rewrite leading_spaces_indent by apply ESC_not_space; lia.
  - intros key rest. unfold esc. cbn [app].
    rewrite leading_spaces_indent by apply ESC_not_space. lia.
  - intros [|item items] NE T; [congruence|].
    change (print num_toString cfg (VArr (item :: items)) n)
      with (printArray num_toString (print num_toString cfg) cfg
              (item :: items) n).
    unfold printArray. change (length (item :: items) =? 0)%nat with false.
    cbv iota. now rewrite T.
Qed.

(** The renderer converts a number with the number's own [toString] and
    with nothing else.  When the text holds no line break and is at or under
    the configured limit, the formatted number is that text between the cyan
    escape and the reset, and two numbers formatted alike have the same
    text. *)
Lemma number_text_kept (x : num) :
  find_cu NL (num_toString x) = None ->
  len (num_toString x)
    <= limit_or_length (num_toString x) (max_prim_length cfg) ->
  formatPrimitive num_toString cfg (VNum x)
    = esc "[36m" ++ num_toString x ++ esc "[0m"
  /\ (forall y,
        find_cu NL (num_toString y) = None ->
        len (num_toString y)
          <= limit_or_length (num_toString y) (max_prim_length cfg) ->
        formatPrimitive num_toString cfg (VNum y)
          = formatPrimitive num_toString cfg (VNum x) ->
        num_toString y = num_toString x).
Proof.
  assert (K : forall z,
    find_cu NL (num_toString z) = None ->
    len (num_toString z)
      <= limit_or_length (num_toString z) (max_prim_length cfg) ->
    formatPrimitive num_toString cfg (VNum z)
      = esc "[36m" ++ num_toString z ++ esc "[0m").
  { intros z F L. simpl. rewrite truncate_fits; [reflexivity|].
    now rewrite effective_max_no_break. }
  intros F L. split; [now apply K|].
  intros y Fy Ly. rewrite (K x F L), (K y Fy Ly). intros E.
  apply app_inv_head in E. now apply app_inv_tail in E.
Qed.




(** C10: the spans of [true], [false] and [null] are fixed texts whatever
    the configuration, their plain texts are the words themselves, strings
    and numbers go through the truncator with the configured maximum, and
    no value that is neither a string nor a number is formatted differently
    under two configurations. *)
Theorem fixed_spans_not_truncated :
  formatPrimitive num_toString cfg (VBool true) = esc "[32mtrue" ++ esc "[0m"
  /\ formatPrimitive num_toString cfg (VBool false)
       = esc "[31mfalse" ++ esc "[0m"
  /\ formatPrimitive num_toString cfg VNull = esc "[90mnull" ++ esc "[0m"
  /\ stripColors (formatPrimitive num_toString cfg (VBool true)) = lit "true"
  /\ stripColors (formatPrimitive num_toString cfg (VBool false)) = lit "false"
  /\ stripColors (formatPrimitive num_toString cfg VNull) = lit "null"
  /\ (forall s,
        formatPrimitive num_toString cfg (VStr s)
          = esc "[93m" ++ truncate cfg s (max_prim_length cfg) ++ esc "[0m")
  /\ (forall x,
        formatPrimitive num_toString cfg (VNum x)
          = esc "[36m" ++ truncate cfg (num_toString x) (max_prim_length cfg)
              ++ esc "[0m")
  /\ (forall cfg' v,
        (forall s, v <> VStr s) -> (forall x, v <> VNum x) ->
        formatPrimitive num_toString cfg' v
          = formatPrimitive num_toString cfg v).
Proof.
  repeat split.
  intros cfg' v Hs Hx.
  destruct v; try reflexivity; [destruct (Hs s)|destruct (Hx x)]; reflexivity.
Qed.

End BlockFacts.

(** ** The loop of [#printObject] *)

Section ObjectFacts.

Context {num : Type}.

(** Reading [obj[key]] for a key of an object with distinct keys gives the
    value listed with that key: the loop over the keys is the loop over the
    entries. *)
Lemma get_prop_entry (fields : list (jsstring * Value num)) key value :
  NoDup (keys_of fields) -> In (key, value) fields ->
  get_prop fields key = value.
Proof.
  induction fields as [|[k v] rest IH]; simpl; [tauto|].
  intros ND [E|H].
  - injection E as -> ->.
    now replace (str_eqb key key) with true by (symmetry; now apply str_eqb_eq).
  - inversion ND as [|? ? Hk ND']; subst.
    destruct (str_eqb k key) eqn:E.
    + apply str_eqb_eq in E. subst k. exfalso. apply Hk.
      change key with (fst (key, value)). now apply in_map.
    + now apply IH.
Qed.

(** For an object with distinct keys, the loop over the keys of the source
    and the loop over the entries give the same text. *)
Lemma printObject_by_keys_eq (toString : num -> jsstring)
  (print : Value num -> nat -> jsstring) (cfg : Config)
  (obj : list (jsstring * Value num)) (indent : nat) :
  NoDup (keys_of obj) ->
  printObject_by_keys toString print cfg obj indent
  = printObject toString print cfg obj indent.
Proof.
  intros ND. unfold printObject_by_keys, printObject.
  destruct (length (keys_of obj) =? 0)%nat; [reflexivity|]. f_equal.
  assert (K : forall l, incl l obj ->
    flat_map (fun key =>
                object_lines toString print cfg indent (key, get_prop obj key))
      (keys_of l)
    = flat_map (object_lines toString print cfg indent) l).
  { induction l as [|[k v] l IH]; intros Hl; [reflexivity|].
    simpl. rewrite (get_prop_entry obj k v ND) by (apply Hl; now left).
    f_equal. apply IH. intros e He. apply Hl. now right. }
  apply K, incl_refl.
Qed.

End ObjectFacts.

(** * Evaluations on concrete inputs *)

Example truncate_short_text :
  truncate default_config (lit "hello") (Some 10) = lit "hello".
Proof. reflexivity. Qed.

Example truncate_long_text :
  truncate default_config (lit "hello world") (Some 8) = lit "hello...".
Proof. reflexivity. Qed.

Example print_null_property :
  print int_toString default_config (VObj [(lit "a", VNull)]) 0
  = lit "  " ++ esc "[1ma" ++ esc "[0m: " ++ esc "[90mnull" ++ esc "[0m".
Proof. reflexivity. Qed.

Example print_differing_shapes :
  print int_toString default_config
    (VArr [VObj [(lit "x", VNum 1)]; VObj [(lit "y", VNum 2)]]) 0
  = lit "    " ++ esc "[1mx" ++ esc "[0m: " ++ esc "[36m1" ++ esc "[0m"
      ++ [NL]
      ++ lit "    " ++ esc "[1my" ++ esc "[0m: " ++ esc "[36m2" ++ esc "[0m".
Proof. reflexivity. Qed.

Example table_mode_xy : table_mode xy_rows = true.
Proof. reflexivity. Qed.

(** A row with an own property [__proto__]: no width is stored for that
    column, the top border has no rule, the header and the cell of the
    column are not padded, and the separator and the bottom border have no
    rule for it.  The visible lengths of the five lines differ. *)
Example proto_column_widths :
  table_widths int_toString default_config proto_rows = [(lit "a", 5)]
  /\ table_totalWidth int_toString default_config proto_rows = None.
Proof. split; reflexivity. Qed.

Example proto_column_lines :
  table_mode proto_rows = true
  /\ map (fun line => len (stripColors line))
       (table_lines int_toString default_config proto_rows 0)
     = [2; 21; 10; 15; 10].
Proof. split; reflexivity. Qed.

(** [String(value)] throws for an object with an own property [toString]
    and for an array that holds one, and returns for the others. *)
Example String_of_values :
  String_throws (VObj [(lit "toString", VNum 1)] : Value Z) = true
  /\ String_throws (VArr [VNull; VArr [VObj [(lit "toString", VNull)]]]
                     : Value Z) = true
  /\ String_throws (VObj [(lit "valueOf", VNum 1)] : Value Z) = false
  /\ js_String int_toString (VObj [(lit "valueOf", VNum 1)])
     = lit "[object Object]"
  /\ js_String int_toString (VArr [VNum 1; VNull; VArr [VStr (lit "a"); VUndef]])
     = lit "1,,a,".
Proof. repeat split. Qed.

Ltac distinct_strings :=
  repeat constructor; simpl; intros H;
  repeat (destruct H as [H|H]; [vm_compute in H; discriminate H|]);
  exact H.

(** ** C1 *)

Lemma array_layout_witness :
  Forall distinct_keys xy_rows
  /\ print int_toString default_config (VArr xy_rows) 0
       = printTable int_toString default_config xy_rows 0.
Proof.
  assert (WF : Forall distinct_keys xy_rows) by distinct_strings.
  split; [exact WF|].
  destruct (array_layout int_toString default_config xy_rows 0 WF)
    as (TM & T & _).
  apply T, TM. reflexivity.
Defined.

(** The empty array fails the condition of the table layout and is not
    printed as a vertical list, which for no element is the empty text. *)
Lemma empty_array_not_vertical_list :
  ~ uniform_records (@nil (Value Z))
  /\ print int_toString default_config (VArr []) 0 = lit "[]"
  /\ print int_toString default_config (VArr []) 0
       <> vertical_list (print int_toString default_config) [] 0.
Proof.
  split; [intros (NE & _); now apply NE|].
  split; [reflexivity|discriminate].
Qed.

(** ** C2 *)

Lemma column_width_bounds_witness :
  Z.min (len (lit "x")) 50
    <= col_width int_toString default_config xy_rows (lit "x") <= 50
  /\ get_width
       (compute_widths int_toString default_config xy_rows
          [lit "x"; lit "y"]) (lit "x")
     = Some (col_width int_toString default_config xy_rows (lit "x")).
Proof.
  destruct (column_width_bounds int_toString default_config xy_rows
              [lit "x"; lit "y"] (lit "x")) as (B & _ & R & _).
  - simpl. left. reflexivity.
  - split; [exact B|]. apply R. discriminate.
Defined.

(** A key of 51 units gets a column of width 50, below its length. *)
Lemma long_key_wider_than_column :
  len long_key = 51
  /\ col_width int_toString default_config [VObj [(long_key, VNull)]] long_key
       = 50
  /\ ~ (len long_key
          <= col_width int_toString default_config
               [VObj [(long_key, VNull)]] long_key).
Proof.
  split; [reflexivity|split; [reflexivity|]].
  intros H. vm_compute in H. now apply H.
Qed.

(** ** C3 *)

(** C3: the cell of the one-row table whose value is [ab], a line break and
    [cd], under the default configuration.  The formatted value is cut at
    the line break with a negative slice end and has 7 plain units, which is
    the width of the column; truncating the plain text to that width cuts at
    the line break again, and the plain text of the cell has 9 units. *)
Theorem cell_longer_than_column :
  stripColors (formatPrimitive int_toString default_config (VStr two_lines))
    = lit "ab" ++ [NL] ++ lit "c..."
  /\ col_width int_toString default_config [two_lines_row] (lit "a") = 7
  /\ stripColors
       (cell_display int_toString default_config two_lines_row (lit "a") 7)
     = lit "ab" ++ [NL] ++ lit "c....."
  /\ len (stripColors
            (cell_display int_toString default_config two_lines_row
               (lit "a") 7)) = 9.
Proof. repeat split. Qed.

(** ** C5 *)

Lemma truncate_at_line_break_witness :
  effective_max hello_world (Some (-1)) = 5
  /\ truncate default_config hello_world (Some (-1)) = lit "he...".
Proof.
  destruct (truncate_at_line_break default_config hello_world (Some (-1)) 5)
    as (E & C & _).
  - reflexivity.
  - lia.
  - vm_compute. reflexivity.
  - split; [exact E|].
    apply C; [lia|left; reflexivity].
Defined.

(** With a limit of 100 the line break of [hello], line break, [world] is
    at index 5, before the limit, and the result is [he...]: the last three
    units of the first line are not shown. *)
Lemma first_line_loses_three_units :
  indexOf NL hello_world = 5
  /\ truncate default_config hello_world (Some 100) = lit "he..."
  /\ firstn 5 (truncate default_config hello_world (Some 100))
       <> firstn 5 hello_world.
Proof. repeat split. discriminate. Qed.

(** ** C6 *)

Lemma truncate_idempotent_compact_witness :
  truncate default_config (truncate default_config hello_world (Some 8))
    (Some 8)
  = truncate default_config hello_world (Some 8).
Proof.
  apply (truncate_idempotent_compact default_config hello_world (Some 8)).
  right. split; [vm_compute; discriminate|left; reflexivity].
Defined.

(** In the annotated style the result of truncating sixty [a] to 30 has 33
    units, and truncating it to 30 again changes it. *)
Lemma truncate_annotated_not_idempotent :
  len (truncate annotating_config sixty_a (Some 30)) = 33
  /\ truncate annotating_config
       (truncate annotating_config sixty_a (Some 30)) (Some 30)
     <> truncate annotating_config sixty_a (Some 30).
Proof. split; [reflexivity|discriminate]. Qed.

(** ** C7 *)

(** The key line of an object printed at indent 0 starts with two spaces. *)
Lemma key_line_indented_one_level_more :
  leading_spaces
    (print int_toString default_config (VObj [(lit "a", VNull)]) 0) = 2%nat
  /\ leading_spaces
       (print int_toString default_config (VObj [(lit "a", VNull)]) 0)
     <> (2 * 0)%nat.
Proof. split; [reflexivity|discriminate]. Qed.

(** ** Numbers *)

Lemma number_text_kept_witness :
  formatPrimitive int_toString default_config (VNum 123456)
  = esc "[36m" ++ lit "123456" ++ esc "[0m".
Proof.
  apply (number_text_kept int_toString default_config 123456).
  - reflexivity.
  - vm_compute. discriminate.
Defined.

(** With a maximum of 4 units two different numbers are formatted alike. *)
Lemma truncated_numbers_collide :
  formatPrimitive int_toString four_units_config (VNum 123456)
    = esc "[36m" ++ lit "1..." ++ esc "[0m"
  /\ formatPrimitive int_toString four_units_config (VNum 123456)
     = formatPrimitive int_toString four_units_config (VNum 123457)
  /\ int_toString 123456 <> int_toString 123457.
Proof. repeat split. discriminate. Qed.

(** ** C9 *)

(** One activation less is not enough for this value. *)
Example print_needs_depth_plus_one :
  print_fuel int_toString 3 default_config nested_value 0 = RangeError.
Proof. reflexivity. Qed.



(** * Further properties of the renderer and of its callers *)

(** ** [#stripColors] *)

Section StripFacts.

Lemma find_cu_cons_None c x t :
  find_cu c (x :: t) = None <-> x <> c /\ find_cu c t = None.
Proof.
  simpl. destruct (N.eqb x c) eqn:E.
  - apply N.eqb_eq in E. split; [discriminate|]. now intros [H _].
  - apply N.eqb_neq in E. destruct (find_cu c t); split;
      try discriminate; try tauto. now intros [_ H].
Qed.

Lemma find_cu_app_inv c a b :
  find_cu c (a ++ b) = None -> find_cu c a = None /\ find_cu c b = None.
Proof.
  induction a as [|x t IH]; simpl app; [now split|].
  rewrite !find_cu_cons_None. intros [Hx H]. destruct (IH H). now repeat split.
Qed.

Lemma find_cu_repeat_None c x n :
  x <> c -> find_cu c (repeat_cu x n) = None.
Proof.
  intros H. induction n as [|n IH]; [reflexivity|].
  change (repeat_cu x (S n)) with (x :: repeat_cu x n).
  now apply find_cu_cons_None.
Qed.

Lemma sgr_len_not_escape c t : c <> ESC -> sgr_len (c :: t) = None.
Proof.
  intros H. destruct t as [|b t]; [reflexivity|]. simpl.
  now replace (N.eqb c ESC) with false by (symmetry; now apply N.eqb_neq).
Qed.

(** A prefix without escape unit is kept as it is. *)
Lemma strip_clean_prefix a b :
  find_cu ESC a = None -> strip_from 0 (a ++ b) = a ++ strip_from 0 b.
Proof.
  induction a as [|c t IH]; [reflexivity|].
  rewrite find_cu_cons_None. intros [Hc Ht].
  change ((c :: t) ++ b) with (c :: (t ++ b)).
  rewrite strip_from_cons, sgr_len_not_escape by assumption.
  simpl. now rewrite IH.
Qed.

Lemma strip_from_skip a c b :
  strip_from (S (length a)) (a ++ c :: b) = strip_from 0 b.
Proof. induction a as [|x t IH]; [reflexivity|exact IH]. Qed.

Lemma params_m_run params b :
  forallb is_param params = true ->
  params_m (params ++ 109%N :: b) = Some (S (length params)).
Proof.
  induction params as [|c t IH]; simpl; [reflexivity|].
  rewrite andb_true_iff. intros [-> H]. now rewrite IH.
Qed.

(** A well-formed sequence, the escape unit, [[], parameters and [m], is
    dropped. *)
Lemma strip_sequence params b :
  forallb is_param params = true ->
  strip_from 0 (ESC :: 91%N :: params ++ 109%N :: b) = strip_from 0 b.
Proof.
  intros H. rewrite strip_from_cons.
  assert (E : sgr_len (ESC :: 91%N :: params ++ 109%N :: b)
              = Some (2 + S (length params))%nat).
  { unfold sgr_len. simpl andb. cbv iota. now rewrite params_m_run. }
  rewrite E. simpl Nat.pred. rewrite strip_from_cons.
  apply strip_from_skip.
Qed.

Lemma params_m_before_escape p r :
  params_m (p ++ ESC :: r) = params_m p.
Proof.
  induction p as [|c t IH]; [reflexivity|].
  simpl. now rewrite IH.
Qed.

Lemma params_m_le p n : params_m p = Some n -> (n <= length p)%nat.
Proof.
  revert n. induction p as [|c t IH]; simpl; [discriminate|].
  destruct (is_param c).
  - destruct (params_m t) as [k|]; [|discriminate].
    intros n [= <-]. specialize (IH k eq_refl). lia.
  - destruct (N.eqb c 109); [|discriminate]. intros n [= <-]. lia.
Qed.

Lemma sgr_len_bounds t n :
  sgr_len t = Some n -> (1 <= n <= length t)%nat.
Proof.
  destruct t as [|e [|b t]]; try discriminate. simpl.
  destruct (N.eqb e ESC && N.eqb b 91); [|discriminate].
  destruct (params_m t) as [k|] eqn:E; [|discriminate].
  intros [= <-]. apply params_m_le in E. lia.
Qed.

Lemma sgr_len_before_escape t r :
  t <> [] -> sgr_len (t ++ ESC :: r) = sgr_len t.
Proof.
  destruct t as [|e [|b t]]; [congruence| |]; intros _.
  - simpl. now rewrite andb_false_r.
  - simpl. now rewrite params_m_before_escape.
Qed.

(** What follows a text and starts with the escape unit does not change
    how the text is stripped. *)
Lemma strip_from_before_escape k t r :
  (k <= length t)%nat ->
  strip_from k (t ++ ESC :: r) = strip_from k t ++ strip_from 0 (ESC :: r).
Proof.
  revert k. induction t as [|c t IH]; intros k Hk.
  - simpl in Hk. replace k with 0%nat by lia. reflexivity.
  - change ((c :: t) ++ ESC :: r) with (c :: (t ++ ESC :: r)).
    rewrite !strip_from_cons. destruct k as [|k].
    + change (c :: (t ++ ESC :: r)) with ((c :: t) ++ ESC :: r).
      rewrite sgr_len_before_escape by discriminate.
      destruct (sgr_len (c :: t)) as [n|] eqn:E.
      * apply sgr_len_bounds in E. apply IH. simpl in E. lia.
      * simpl. now rewrite IH by lia.
    + apply IH. simpl in Hk. lia.
Qed.

Lemma strip_reset : strip_from 0 (esc "[0m") = [].
Proof. reflexivity. Qed.

(** The text between a color sequence and the reset is stripped as if it
    stood alone. *)
Lemma strip_span params t :
  forallb is_param params = true ->
  stripColors (ESC :: 91%N :: params ++ 109%N :: t ++ esc "[0m")
  = stripColors t.
Proof.
  intros H. unfold stripColors. rewrite strip_sequence by assumption.
  unfold esc. rewrite strip_from_before_escape by lia.
  fold (esc "[0m"). now rewrite strip_reset, app_nil_r.
Qed.

Lemma stripColors_plain (s : jsstring) :
  find_cu ESC s = None -> stripColors s = s.
Proof.
  intros H. unfold stripColors.
  rewrite <- (app_nil_r s) at 1. rewrite strip_clean_prefix by assumption.
  simpl. apply app_nil_r.
Qed.

(** X1: stripping never lengthens a text, leaves a text without escape unit
    as it is, and drops a well-formed sequence wherever it follows such a
    text. *)
Theorem stripColors_spec (s : jsstring) :
  len (stripColors s) <= len s
  /\ (find_cu ESC s = None -> stripColors s = s)
  /\ (forall a params b,
        find_cu ESC a = None -> forallb is_param params = true ->
        stripColors (a ++ ESC :: 91%N :: params ++ 109%N :: b)
          = a ++ stripColors b).
Proof.
  split; [apply len_strip_from|split].
  - apply stripColors_plain.
  - intros a params b Ha Hp. unfold stripColors.
    rewrite strip_clean_prefix by assumption.
    now rewrite strip_sequence.
Qed.

End StripFacts.

(** ** The visible text of a printed scalar, and more on [#truncate] *)

Section VisibleText.

Context {num : Type}.
Variable num_toString : num -> jsstring.
Variable cfg : Config.

Lemma find_cu_firstn_app_None c s k t :
  find_cu c s = None -> find_cu c t = None ->
  find_cu c (firstn k s ++ t) = None.
Proof.
  intros Hs Ht. apply find_cu_app_None; [|assumption].
  now apply find_cu_firstn_None.
Qed.

Lemma slice0_is_prefix s e : exists k, slice0 s e = firstn k s.
Proof. unfold slice0. now eexists. Qed.

(** X2: the visible text of a printed string is the indentation followed
    by the visible text of the truncated string, whatever the style; for a
    string without escape unit and line break that is at or under the limit
    it is the indentation followed by the string itself. *)
Theorem printed_string_visible_text (s : jsstring) (indent : nat) :
  stripColors (print num_toString cfg (VStr s) indent)
    = repeat_cu SP (2 * indent)
        ++ stripColors (truncate cfg s (max_prim_length cfg))
  /\ (find_cu ESC s = None -> find_cu NL s = None ->
      len s <= limit_or_length s (max_prim_length cfg) ->
      stripColors (print num_toString cfg (VStr s) indent)
        = repeat_cu SP (2 * indent) ++ s).
Proof.
  assert (E : stripColors (print num_toString cfg (VStr s) indent)
              = repeat_cu SP (2 * indent)
                  ++ stripColors (truncate cfg s (max_prim_length cfg))).
  { simpl print. rewrite (Nat.mul_comm indent 2).
    unfold stripColors at 1.
    rewrite strip_clean_prefix by (apply find_cu_repeat_None; discriminate).
    f_equal.
    exact (strip_span [57; 51]%N (truncate cfg s (max_prim_length cfg))
             eq_refl). }
  split; [exact E|].
  intros He Hn Hl. rewrite E. f_equal.
  rewrite truncate_fits by (now rewrite effective_max_no_break).
  now apply stripColors_plain.
Qed.

(** A text that is at or under its effective maximum holds no line
    break. *)
Lemma fits_no_break s m :
  len s <= effective_max s m -> find_cu NL s = None.
Proof.
  intros H.
  destruct (effective_max_cases s m)
    as [[F _]|[(i & F & L & E)|(i & F & L & E)]]; [assumption| |];
    pose proof (find_cu_lt _ _ _ F); unfold len in H; lia.
Qed.

(** X3: in the compact style, when the text fits or the effective maximum
    is at least 3, the result is a single line, no longer than the limit,
    no longer than the text, and made of a prefix of the text followed by
    nothing or by the ellipsis. *)
Theorem truncate_compact_single_line (s : jsstring) (m : option Z) :
  discourage_multiline cfg = false \/ effective_max s m <= 24 ->
  len s <= effective_max s m \/ 3 <= effective_max s m ->
  find_cu NL (truncate cfg s m) = None
  /\ len (truncate cfg s m) <= limit_or_length s m
  /\ len (truncate cfg s m) <= len s
  /\ (truncate cfg s m = s
      \/ exists k, truncate cfg s m = firstn k s ++ lit "...").
Proof.
  intros Hc H.
  pose proof (effective_max_le_limit s m) as Hle.
  destruct (Z_le_gt_dec (len s) (effective_max s m)) as [Hfit|Hcut].
  - rewrite truncate_fits by assumption.
    repeat split; try lia; [now apply (fits_no_break s m)|now left].
  - destruct H as [H|H3]; [lia|].
    destruct (truncate_compact_shape cfg s m) as (T & L & F); auto; [lia|].
    repeat split; try assumption; try lia.
    right. eexists. exact T.
Qed.

Lemma find_cu_uint_None (d : Decimal.uint) : find_cu ESC (uint_cus d) = None.
Proof. induction d; simpl; rewrite ?IHd; reflexivity. Qed.

Lemma find_cu_int_toString_None (z : Z) : find_cu ESC (int_toString z) = None.
Proof.
  unfold int_toString. destruct (z <? 0); [|apply find_cu_uint_None].
  apply find_cu_cons_None. split; [discriminate|apply find_cu_uint_None].
Qed.

Lemma endsWith_absent c s : find_cu c s = None -> endsWith c s = false.
Proof.
  intros H. unfold endsWith. destruct (List.rev s) as [|x r] eqn:E;
    [reflexivity|].
  assert (In x s) by (apply in_rev; rewrite E; now left).
  destruct (N.eqb x c) eqn:X; [|reflexivity]. apply N.eqb_eq in X. subst x.
  exfalso. clear E. induction s as [|y t IH]; [contradiction|].
  apply find_cu_cons_None in H as [Hy Ht].
  destruct H0 as [->|H0]; [congruence|now apply IH].
Qed.

(** X4: the annotated style on a text without line break and escape unit
    that exceeds a maximum above 24, when the count of the units beyond
    the maximum has at most [m - 12] digits: the result shows the first
    [m - 12 - digits] units, an ellipsis and the count, and its visible
    text has exactly [m - 1] units. *)
Theorem truncate_annotated_visible (s : jsstring) (m : Z) :
  discourage_multiline cfg = true ->
  24 < m < len s ->
  find_cu NL s = None -> find_cu ESC s = None ->
  len (int_toString (len s - m)) <= m - 12 ->
  let digits := len (int_toString (len s - m)) in
  truncate cfg s (Some m)
    = firstn (Z.to_nat (m - 12 - digits)) s ++ lit "... " ++ esc "[0m("
        ++ int_toString (len s - m) ++ lit " more)"
  /\ stripColors (truncate cfg s (Some m))
     = firstn (Z.to_nat (m - 12 - digits)) s ++ lit "... ("
         ++ int_toString (len s - m) ++ lit " more)"
  /\ len (stripColors (truncate cfg s (Some m))) = m - 1.
Proof.
  intros Hd Hm Hn He Hdig digits.
  pose proof (len_nonneg (int_toString (len s - m))) as Hd0.
  fold digits in Hdig, Hd0.
  assert (N : no_limit (Some m) = false).
  { simpl. apply orb_false_intro; [apply Z.eqb_neq|apply Z.ltb_ge]; lia. }
  assert (E : effective_max s (Some m) = m).
  { rewrite effective_max_no_break by assumption.
    now apply limit_or_length_limited. }
  assert (T : truncate cfg s (Some m)
              = firstn (Z.to_nat (m - 12 - digits)) s ++ lit "... "
                  ++ esc "[0m(" ++ int_toString (len s - m) ++ lit " more)").
  { unfold truncate. rewrite E, Hd.
    replace (len s <=? m) with false by (symmetry; apply Z.leb_gt; lia).
    replace (24 <? m) with true by (symmetry; apply Z.ltb_lt; lia).
    simpl andb. cbv iota.
    rewrite endsWith_absent.
    - fold digits. now rewrite slice0_prefix by lia.
    - destruct (slice0_is_prefix s (m + 1)) as (k & ->).
      now apply find_cu_firstn_None. }
  assert (S : stripColors (truncate cfg s (Some m))
              = firstn (Z.to_nat (m - 12 - digits)) s ++ lit "... ("
                  ++ int_toString (len s - m) ++ lit " more)").
  { assert (R : strip_from 0
                  (esc "[0m(" ++ int_toString (len s - m) ++ lit " more)")
                = 40%N :: int_toString (len s - m) ++ lit " more)").
    { change (esc "[0m(" ++ int_toString (len s - m) ++ lit " more)")
        with (ESC :: 91%N :: [48%N] ++ 109%N
                :: (40%N :: int_toString (len s - m) ++ lit " more)")).
      rewrite strip_sequence by reflexivity.
      apply (stripColors_plain
               (40%N :: int_toString (len s - m) ++ lit " more)")).
      apply find_cu_cons_None. split; [discriminate|].
      apply find_cu_app_None; [apply find_cu_int_toString_None|reflexivity]. }
    rewrite T. unfold stripColors. rewrite app_assoc.
    rewrite strip_clean_prefix
      by (apply find_cu_firstn_app_None; [assumption|reflexivity]).
    rewrite R, <- app_assoc. reflexivity. }
  split; [exact T|split; [exact S|]].
  rewrite S, !len_app. fold digits.
  change (len (lit "... (")) with 5. change (len (lit " more)")) with 6.
  unfold len at 1. rewrite length_firstn. unfold len in Hm. lia.
Qed.

End VisibleText.

(** ** The geometry of a table *)

Section TableGeometry.

Context {num : Type}.
Variable num_toString : num -> jsstring.
Variable cfg : Config.

Lemma printTable_lines (arr : list (Value num)) (indent : nat) :
  printTable num_toString cfg arr indent
  = NL :: join [NL] (table_lines num_toString cfg arr indent).
Proof. reflexivity. Qed.

Lemma len_cons (c : cu) (s : jsstring) : len (c :: s) = 1 + len s.
Proof. unfold len. simpl length. lia. Qed.

Lemma len_join (sep : jsstring) (l : list jsstring) :
  l <> [] ->
  len (join sep l)
  = sumZ (map len l) + (Z.of_nat (length l) - 1) * len sep.
Proof.
  induction l as [|x [|y t] IH]; [congruence| |]; intros _.
  - simpl. lia.
  - change (join sep (x :: y :: t)) with (x ++ sep ++ join sep (y :: t)).
    rewrite !len_app, IH by discriminate.
    change (sumZ (map len (x :: y :: t)))
      with (len x + sumZ (map len (y :: t))).
    change (length (x :: y :: t)) with (S (length (y :: t))). lia.
Qed.

Lemma sumZ_cons (x : Z) (l : list Z) : sumZ (x :: l) = x + sumZ l.
Proof. reflexivity. Qed.

Lemma sumZ_nonneg (l : list Z) : Forall (fun x => 0 <= x) l -> 0 <= sumZ l.
Proof.
  induction 1 as [|x t Hx _ IH]; [reflexivity|].
  rewrite sumZ_cons. lia.
Qed.

(** The [reduce] of line 141 when every width read is a number. *)
Lemma fold_left_widths (widths : list (jsstring * Z)) (f : jsstring -> Z)
  (keys : list jsstring) (a : Z) :
  (forall k, In k keys -> get_width widths k = Some (f k)) ->
  fold_left (fun sum k => add_width sum (get_width widths k)) keys (Some a)
  = Some (a + sumZ (map (fun k => f k + 3) keys)).
Proof.
  revert a. induction keys as [|k t IH]; intros a R.
  - simpl. f_equal. lia.
  - simpl fold_left. rewrite (R k) by now left.
    simpl add_width. rewrite IH by (intros k' Hk'; apply R; now right).
    simpl map. rewrite sumZ_cons. f_equal. lia.
Qed.

Lemma not_proto_key (keys : list jsstring) (key : jsstring) :
  ~ In proto_key keys -> In key keys -> key <> proto_key.
Proof. intros NP H ->. contradiction. Qed.

(** The widths read for the columns of a table without column [__proto__]
    are the computed ones. *)
Lemma table_width_read (arr : list (Value num)) (key : jsstring) :
  In key (firstKeys arr) -> key <> proto_key ->
  get_width (table_widths num_toString cfg arr) key
  = Some (col_width num_toString cfg arr key).
Proof. apply get_compute_widths. Qed.

Lemma col_width_nonneg (arr : list (Value num)) (key : jsstring) :
  0 <= col_width num_toString cfg arr key.
Proof.
  pose proof (col_width_bounds num_toString cfg arr key).
  pose proof (len_nonneg key). lia.
Qed.

Lemma table_totalWidth_numeric (arr : list (Value num)) :
  ~ In proto_key (firstKeys arr) ->
  table_totalWidth num_toString cfg arr
  = Some (numeric_totalWidth num_toString cfg arr).
Proof.
  intros NP. unfold table_totalWidth, numeric_totalWidth.
  rewrite (fold_left_widths _ (col_width num_toString cfg arr)).
  - cbn [option_map]. f_equal. lia.
  - intros k Hk. apply table_width_read; [assumption|].
    now apply (not_proto_key (firstKeys arr)).
Qed.

Lemma sumZ_rules (arr : list (Value num)) (keys : list jsstring) :
  (forall k, In k keys ->
     get_width (table_widths num_toString cfg arr) k
     = Some (col_width num_toString cfg arr k)) ->
  sumZ (map len (map (table_rule num_toString cfg arr) keys))
  = sumZ (map (fun k => col_width num_toString cfg arr k + 3) keys)
    - Z.of_nat (length keys).
Proof.
  induction keys as [|k t IH]; intros R; [reflexivity|].
  simpl map. rewrite !sumZ_cons, IH by (intros k' Hk'; apply R; now right).
  unfold table_rule at 1. rewrite (R k) by now left.
  simpl repeat_to. rewrite len_repeat.
  pose proof (col_width_nonneg arr k). simpl length. lia.
Qed.

Lemma length_pos_nonempty {A : Type} (l : list A) :
  l <> [] -> (1 <= length l)%nat.
Proof. destruct l; [congruence|simpl; lia]. Qed.

Lemma rule_line_length (arr : list (Value num)) (sep : cu) :
  firstKeys arr <> [] -> ~ In proto_key (firstKeys arr) ->
  len (join [sep] (map (table_rule num_toString cfg arr) (firstKeys arr)))
  = numeric_totalWidth num_toString cfg arr.
Proof.
  intros NE NP. unfold numeric_totalWidth.
  rewrite len_join by (destruct (firstKeys arr); [congruence|discriminate]).
  rewrite sumZ_rules.
  - rewrite !length_map. change (len [sep]) with 1. lia.
  - intros k Hk. apply table_width_read; [assumption|].
    now apply (not_proto_key (firstKeys arr)).
Qed.

Lemma numeric_totalWidth_bound (arr : list (Value num)) :
  firstKeys arr <> [] -> 2 <= numeric_totalWidth num_toString cfg arr.
Proof.
  intros NE. unfold numeric_totalWidth.
  destruct (firstKeys arr) as [|k t]; [congruence|].
  simpl map. rewrite sumZ_cons.
  pose proof (col_width_nonneg arr k).
  assert (0 <= sumZ (map (fun k => col_width num_toString cfg arr k + 3) t)).
  { apply sumZ_nonneg, Forall_forall. intros x Hx.
    apply in_map_iff in Hx as (k' & <- & _).
    pose proof (col_width_nonneg arr k'). lia. }
  lia.
Qed.

Lemma border_lengths (arr : list (Value num)) (indent : nat) :
  firstKeys arr <> [] -> ~ In proto_key (firstKeys arr) ->
  len (table_top num_toString cfg arr indent)
    = border_length num_toString cfg arr indent
  /\ len (table_separator num_toString cfg arr indent)
     = border_length num_toString cfg arr indent
  /\ len (table_bottom num_toString cfg arr indent)
     = border_length num_toString cfg arr indent.
Proof.
  intros NE NP. pose proof (numeric_totalWidth_bound arr NE).
  unfold border_length, table_top, table_separator, table_bottom.
  rewrite table_totalWidth_numeric by assumption. simpl repeat_to.
  rewrite !len_app, !len_repeat, !rule_line_length by assumption.
  change (len [box_tl]) with 1. change (len [box_tr]) with 1.
  change (len [box_l]) with 1. change (len [box_r]) with 1.
  change (len [box_bl]) with 1. change (len [box_br]) with 1.
  repeat split; lia.
Qed.

(** X5: a table is the line break followed by its lines joined with line
    breaks, four lines more than rows.  When it has at least one column and
    none is named [__proto__], the total width is the sum of the computed
    widths plus 3 for each column, less 1, and the top border, the header
    separator and the bottom border all have the same length, twice the
    indent plus the total width plus 2. *)
Theorem table_borders_same_length (arr : list (Value num)) (indent : nat) :
  firstKeys arr <> [] -> ~ In proto_key (firstKeys arr) ->
  printTable num_toString cfg arr indent
    = NL :: join [NL] (table_lines num_toString cfg arr indent)
  /\ length (table_lines num_toString cfg arr indent) = (length arr + 4)%nat
  /\ table_totalWidth num_toString cfg arr
     = Some (sumZ (map (fun k => col_width num_toString cfg arr k + 3)
                     (firstKeys arr)) - 1)
  /\ len (table_top num_toString cfg arr indent)
     = border_length num_toString cfg arr indent
  /\ len (table_separator num_toString cfg arr indent)
     = border_length num_toString cfg arr indent
  /\ len (table_bottom num_toString cfg arr indent)
     = border_length num_toString cfg arr indent.
Proof.
  intros NE NP.
  split; [reflexivity|split; [|split]].
  - unfold table_lines. rewrite !length_app, length_map. simpl. lia.
  - now apply table_totalWidth_numeric.
  - now apply border_lengths.
Qed.

End TableGeometry.

(** ** The alignment of the header and of the rows *)

Section TableAlignment.

Context {num : Type}.
Variable num_toString : num -> jsstring.
Variable cfg : Config.

Lemma strip_clean_cell (x : jsstring) (w : Z) (Y : jsstring) :
  clean_cell x w -> len (strip_from 0 (x ++ Y)) = w + 2 + len (strip_from 0 Y).
Proof.
  intros (params & body & Hp & Hb & Hl & ->).
  change ((SP :: ESC :: 91%N :: params ++ 109%N :: body ++ esc "[0m" ++ [SP])
            ++ Y)
    with ([SP] ++ ESC :: 91%N
            :: (params ++ 109%N :: body ++ esc "[0m" ++ [SP]) ++ Y).
  rewrite strip_clean_prefix by reflexivity.
  replace ((params ++ 109%N :: body ++ esc "[0m" ++ [SP]) ++ Y)
    with (params ++ 109%N :: body ++ esc "[0m" ++ [SP] ++ Y)
    by (rewrite <- !app_assoc; simpl; now rewrite <- !app_assoc).
  rewrite strip_sequence, strip_clean_prefix by assumption.
  change (esc "[0m" ++ [SP] ++ Y)
    with (ESC :: 91%N :: [48%N] ++ 109%N :: ([SP] ++ Y)).
  rewrite strip_sequence, strip_clean_prefix by reflexivity.
  rewrite !len_app. change (len [SP]) with 1. lia.
Qed.

Lemma strip_cells_length (xs : list jsstring) (ws : list Z) (Y : jsstring) :
  Forall2 clean_cell xs ws -> xs <> [] ->
  len (strip_from 0 (join [box_v] xs ++ Y))
  = sumZ ws + 3 * Z.of_nat (length xs) - 1 + len (strip_from 0 Y).
Proof.
  induction 1 as [|x w xs' ws' Hx Hrest IH]; [congruence|]. intros _.
  destruct Hrest as [|y v t vs Hy Ht].
  - simpl join. rewrite (strip_clean_cell x w) by assumption.
    simpl. lia.
  - change (join [box_v] (x :: y :: t))
      with (x ++ [box_v] ++ join [box_v] (y :: t)).
    rewrite <- app_assoc.
    rewrite (strip_clean_cell x w) by assumption.
    rewrite <- app_assoc. rewrite strip_clean_prefix by reflexivity.
    rewrite len_app, IH by discriminate.
    change (sumZ (w :: v :: vs)) with (w + sumZ (v :: vs)).
    change (length (x :: y :: t)) with (S (length (y :: t))).
    change (len [box_v]) with 1. lia.
Qed.

Lemma Forall2_map_same {A B C : Type} (R : B -> C -> Prop)
  (f : A -> B) (g : A -> C) (l : list A) :
  (forall a, In a l -> R (f a) (g a)) -> Forall2 R (map f l) (map g l).
Proof.
  induction l as [|a t IH]; intros H; [constructor|].
  simpl. constructor; [apply H; now left|].
  apply IH. intros b Hb. apply H. now right.
Qed.

Lemma sumZ_plus_three (f : jsstring -> Z) (keys : list jsstring) :
  sumZ (map (fun k => f k + 3) keys)
  = sumZ (map f keys) + 3 * Z.of_nat (length keys).
Proof.
  induction keys as [|k t IH]; [reflexivity|].
  simpl map. rewrite !sumZ_cons, IH. simpl length. lia.
Qed.

(** The visible length of a line made of cells of the computed widths. *)
Lemma cells_line_length (arr : list (Value num)) (indent : nat)
  (cell : jsstring -> jsstring) :
  firstKeys arr <> [] ->
  (forall key, In key (firstKeys arr) ->
     clean_cell (cell key) (col_width num_toString cfg arr key)) ->
  len (stripColors
         (repeat_cu SP (indent * 2) ++ [box_v]
            ++ join [box_v] (map cell (firstKeys arr)) ++ [box_v]))
  = border_length num_toString cfg arr indent.
Proof.
  intros NE H. unfold stripColors.
  rewrite strip_clean_prefix by (apply find_cu_repeat_None; discriminate).
  rewrite strip_clean_prefix by reflexivity.
  rewrite !len_app.
  rewrite (strip_cells_length _
             (map (col_width num_toString cfg arr) (firstKeys arr))).
  - rewrite len_repeat, length_map.
    unfold border_length, numeric_totalWidth. rewrite sumZ_plus_three.
    change (len [box_v]) with 1. change (len (strip_from 0 [box_v])) with 1.
    lia.
  - now apply Forall2_map_same.
  - destruct (firstKeys arr); [congruence|discriminate].
Qed.

Lemma firstn_through a (c : cu) r :
  firstn (S (length a)) (a ++ c :: r) = a ++ [c].
Proof.
  induction a as [|x t IH]; [reflexivity|].
  change (firstn (S (length (x :: t))) ((x :: t) ++ c :: r))
    with (x :: firstn (S (length t)) (t ++ c :: r)).
  now rewrite IH.
Qed.

Lemma leading_sgr_span params rest :
  params <> [] -> forallb is_param params = true ->
  leading_sgr (ESC :: 91%N :: params ++ 109%N :: rest)
  = ESC :: 91%N :: params ++ [109%N].
Proof.
  intros NE Hp.
  assert (E : sgr_len (ESC :: 91%N :: params ++ 109%N :: rest)
              = Some (2 + S (length params))%nat).
  { unfold sgr_len. simpl andb. cbv iota. now rewrite params_m_run. }
  assert (F : firstn (2 + S (length params))
                (ESC :: 91%N :: params ++ 109%N :: rest)
              = ESC :: 91%N :: params ++ [109%N]).
  { change (firstn (2 + S (length params))
              (ESC :: 91%N :: params ++ 109%N :: rest))
      with (ESC :: 91%N
              :: firstn (S (length params)) (params ++ 109%N :: rest)).
    now rewrite firstn_through. }
  destruct params as [|p ps]; [congruence|].
  change (forallb is_param (p :: ps))
    with (is_param p && forallb is_param ps) in Hp.
  apply andb_true_iff in Hp as [P _].
  unfold leading_sgr.
  change ((p :: ps) ++ 109%N :: rest) with (p :: (ps ++ 109%N :: rest)) in *.
  cbv beta iota. rewrite P. simpl andb. cbv iota. rewrite E. exact F.
Qed.

(** In the compact style the truncator brings in no unit but the dot. *)
Lemma truncate_compact_keeps_absent (c : cu) s m :
  discourage_multiline cfg = false -> c <> 46%N ->
  find_cu c s = None -> find_cu c (truncate cfg s m) = None.
Proof.
  intros Hd Hc Hs. unfold truncate. rewrite Hd, andb_false_r.
  destruct (len s <=? effective_max s m); [assumption|].
  destruct (slice0_is_prefix s (effective_max s m - 3)) as (k & ->).
  apply find_cu_firstn_app_None; [assumption|].
  change (lit "...") with [46%N; 46%N; 46%N].
  repeat (apply find_cu_cons_None; split; [congruence|]). reflexivity.
Qed.

(** The formatted text of a clean scalar is a span around a clean text. *)
Lemma format_clean_scalar (v : Value num) :
  discourage_multiline cfg = false -> clean_scalar num_toString v ->
  exists params text,
    params <> [] /\ forallb is_param params = true
    /\ find_cu ESC text = None /\ find_cu NL text = None
    /\ formatPrimitive num_toString cfg v
       = ESC :: 91%N :: params ++ 109%N :: text ++ esc "[0m".
Proof.
  intros Hd Hv. destruct v as [|s|x|[|]| | |]; simpl in Hv; try contradiction.
  - exists [57; 48]%N, (lit "null"). repeat split; discriminate.
  - destruct Hv as [He Hn].
    exists [57; 51]%N, (truncate cfg s (max_prim_length cfg)).
    repeat split; try discriminate;
      apply truncate_compact_keeps_absent; auto; discriminate.
  - destruct Hv as [He Hn].
    exists [51; 54]%N, (truncate cfg (num_toString x) (max_prim_length cfg)).
    repeat split; try discriminate;
      apply truncate_compact_keeps_absent; auto; discriminate.
  - exists [51; 50]%N, (lit "true"). repeat split; discriminate.
  - exists [51; 49]%N, (lit "false"). repeat split; discriminate.
Qed.

Lemma row_cell_clean (arr : list (Value num)) (row : Value num) key :
  discourage_multiline cfg = false ->
  In row arr -> In key (firstKeys arr) -> key <> proto_key ->
  clean_scalar num_toString (prop row key) ->
  clean_cell (row_cell num_toString cfg arr row key)
    (col_width num_toString cfg arr key).
Proof.
  intros Hd Hr Hk NP Hv.
  destruct (format_clean_scalar _ Hd Hv)
    as (params & text & NE & Hp & He & Hn & F).
  assert (P : stripColors (formatPrimitive num_toString cfg (prop row key))
              = text).
  { rewrite F, strip_span by assumption. now apply stripColors_plain. }
  destruct (plain_cell_fits_column num_toString cfg arr key row Hr Hd)
    as (_ & L); [now rewrite P|].
  unfold row_cell. rewrite table_width_read by assumption.
  unfold cell_at, cell_display.
  set (w := col_width num_toString cfg arr key) in *.
  rewrite P in *. rewrite F, leading_sgr_span by assumption.
  assert (D : stripColors (truncate cfg text (Some w))
              = truncate cfg text (Some w)).
  { apply stripColors_plain.
    apply truncate_compact_keeps_absent; auto; discriminate. }
  exists params, (padEnd (stripColors (truncate cfg text (Some w))) w).
  repeat split; [assumption| |assumption|].
  - rewrite D. unfold padEnd. apply find_cu_app_None.
    + apply truncate_compact_keeps_absent; auto; discriminate.
    + apply find_cu_repeat_None. discriminate.
  - simpl. now rewrite <- !app_assoc.
Qed.

(** In the compact style, in a table without column [__proto__], a row
    whose cells under the keys of the table are strings and numbers without
    escape unit and line break, booleans or null has the visible length of
    the borders, whatever the lengths of the values and the configured
    maximum. *)
Lemma table_row_aligned (arr : list (Value num)) (indent : nat)
  (row : Value num) :
  discourage_multiline cfg = false ->
  firstKeys arr <> [] -> ~ In proto_key (firstKeys arr) -> In row arr ->
  (forall key, In key (firstKeys arr) ->
     clean_scalar num_toString (prop row key)) ->
  len (stripColors (table_row num_toString cfg arr indent row))
  = border_length num_toString cfg arr indent.
Proof.
  intros Hd NE NP Hr Hc. unfold table_row.
  apply cells_line_length; [assumption|].
  intros key Hk. apply row_cell_clean; auto.
  now apply (not_proto_key (firstKeys arr)).
Qed.

(** When every key of the table has at most 50 units and no escape unit,
    and none is [__proto__], the header line has the visible length of the
    borders. *)
Lemma table_header_aligned (arr : list (Value num)) (indent : nat) :
  firstKeys arr <> [] -> ~ In proto_key (firstKeys arr) ->
  (forall key, In key (firstKeys arr) ->
     len key <= 50 /\ find_cu ESC key = None) ->
  len (stripColors (table_header num_toString cfg arr indent))
  = border_length num_toString cfg arr indent.
Proof.
  intros NE NP Hk. unfold table_header.
  apply cells_line_length; [assumption|].
  intros key Hkey. destruct (Hk key Hkey) as [L E].
  pose proof (col_width_bounds num_toString cfg arr key) as B.
  unfold header_cell.
  rewrite table_width_read
    by (try assumption; now apply (not_proto_key (firstKeys arr))).
  unfold padEnd_to.
  set (w := col_width num_toString cfg arr key) in *.
  exists [49%N], (padEnd key w). repeat split.
  - unfold padEnd. apply find_cu_app_None; [assumption|].
    apply find_cu_repeat_None. discriminate.
  - unfold padEnd. rewrite len_app, len_repeat. lia.
Qed.

Lemma find_cu_join_None (c sep : cu) (l : list jsstring) :
  sep <> c -> Forall (fun x => find_cu c x = None) l ->
  find_cu c (join [sep] l) = None.
Proof.
  intros Hs. induction 1 as [|x t Hx Ht IH]; [reflexivity|].
  destruct t as [|y t]; [exact Hx|].
  change (join [sep] (x :: y :: t)) with (x ++ [sep] ++ join [sep] (y :: t)).
  apply find_cu_app_None; [assumption|].
  apply find_cu_cons_None. now split.
Qed.

Lemma border_line_plain (indent : nat) (l r sep : cu)
  (rules : list jsstring) :
  l <> ESC -> r <> ESC -> sep <> ESC ->
  Forall (fun x => find_cu ESC x = None) rules ->
  stripColors (repeat_cu SP (indent * 2) ++ [l] ++ join [sep] rules ++ [r])
  = repeat_cu SP (indent * 2) ++ [l] ++ join [sep] rules ++ [r].
Proof.
  intros Hl Hr Hs H. apply stripColors_plain.
  apply find_cu_app_None; [apply find_cu_repeat_None; discriminate|].
  apply find_cu_cons_None. split; [assumption|].
  apply find_cu_app_None; [now apply find_cu_join_None|].
  apply find_cu_cons_None. now split.
Qed.

Lemma rules_plain (arr : list (Value num)) :
  Forall (fun x => find_cu ESC x = None)
    (map (table_rule num_toString cfg arr) (firstKeys arr)).
Proof.
  apply Forall_forall. intros x Hx.
  apply in_map_iff in Hx as (k & <- & _).
  unfold table_rule, repeat_to.
  destruct (option_map _ _); [|reflexivity].
  apply find_cu_repeat_None. discriminate.
Qed.

(** X6: in the compact style, when no key of the table is [__proto__],
    every key has at most 50 units and no escape unit and every cell is a
    string or a number without escape unit and line break, a boolean or
    null, all the lines of the table, borders, header and rows, have the
    same visible length, whatever the lengths of the values and the
    configured maximum. *)
Theorem table_lines_aligned (arr : list (Value num)) (indent : nat) :
  discourage_multiline cfg = false ->
  firstKeys arr <> [] ->
  ~ In proto_key (firstKeys arr) ->
  (forall key, In key (firstKeys arr) ->
     len key <= 50 /\ find_cu ESC key = None) ->
  (forall row key, In row arr -> In key (firstKeys arr) ->
     clean_scalar num_toString (prop row key)) ->
  Forall (fun line =>
            len (stripColors line) = border_length num_toString cfg arr indent)
    (table_lines num_toString cfg arr indent).
Proof.
  intros Hd NE NP Hk Hc.
  destruct (border_lengths num_toString cfg arr indent NE NP) as (T & S & B).
  unfold table_lines. simpl app.
  apply Forall_cons; [|apply Forall_cons; [|apply Forall_cons;
    [|apply Forall_app; split; [|apply Forall_cons; [|apply Forall_nil]]]]].
  - unfold table_top in *.
    rewrite stripColors_plain; [exact T|].
    apply find_cu_app_None; [apply find_cu_repeat_None; discriminate|].
    apply find_cu_cons_None. split; [discriminate|].
    apply find_cu_app_None; [|reflexivity].
    unfold repeat_to. destruct (table_totalWidth _ _ _); [|reflexivity].
    apply find_cu_repeat_None. discriminate.
  - now apply table_header_aligned.
  - unfold table_separator in *.
    rewrite border_line_plain; try discriminate; [exact S|apply rules_plain].
  - apply Forall_forall. intros line Hl.
    apply in_map_iff in Hl as (row & <- & Hr).
    apply table_row_aligned; auto.
  - unfold table_bottom in *.
    rewrite border_line_plain; try discriminate; [exact B|apply rules_plain].
Qed.

End TableAlignment.

(** ** Tables and the order of keys; the callers *)

Section TableRows.

Context {num : Type}.
Variable num_toString : num -> jsstring.
Variable cfg : Config.

Lemma get_prop_missing (fields : list (jsstring * Value num)) key :
  ~ In key (keys_of fields) -> get_prop fields key = VUndef.
Proof.
  induction fields as [|[k v] rest IH]; [reflexivity|]. simpl. intros H.
  destruct (str_eqb k key) eqn:E.
  - apply str_eqb_eq in E. exfalso. apply H. now left.
  - apply IH. intros I. apply H. now right.
Qed.

(** Two objects with the same entries in another order hold the same value
    under every key. *)
Lemma permuted_same_properties (f f' : list (jsstring * Value num)) :
  NoDup (keys_of f) -> Permutation f f' ->
  same_properties (VObj f) (VObj f').
Proof.
  intros ND P key. simpl.
  assert (PK : Permutation (keys_of f) (keys_of f'))
    by (now apply Permutation_map).
  assert (ND' : NoDup (keys_of f')) by (now apply (Permutation_NoDup PK)).
  destruct (in_dec (list_eq_dec N.eq_dec) key (keys_of f)) as [I|I].
  - apply in_map_iff in I as ([k v] & E & I). simpl in E. subst k.
    rewrite (get_prop_entry f key v ND I).
    symmetry. apply get_prop_entry; [assumption|].
    now apply (Permutation_in _ P).
  - rewrite get_prop_missing by assumption.
    symmetry. apply get_prop_missing. intros I'. apply I.
    now apply (Permutation_in _ (Permutation_sym PK)).
Qed.

Lemma map_Forall2 {A B : Type} (R : A -> A -> Prop) (f g : A -> B)
  (l l' : list A) :
  Forall2 R l l' -> (forall a b, R a b -> f a = g b) -> map f l = map g l'.
Proof.
  intros H E. induction H as [|a b l l' Hab _ IH]; [reflexivity|].
  simpl. now rewrite (E a b Hab), IH.
Qed.

Lemma col_width_same (arr arr' : list (Value num)) (key : jsstring) :
  Forall2 same_properties arr arr' ->
  col_width num_toString cfg arr key = col_width num_toString cfg arr' key.
Proof.
  intros H. unfold col_width. do 2 f_equal.
  apply (map_Forall2 same_properties); [assumption|].
  intros a b Hab. now rewrite (Hab key).
Qed.

Lemma compute_widths_same (arr arr' : list (Value num)) keys :
  Forall2 same_properties arr arr' ->
  compute_widths num_toString cfg arr keys
  = compute_widths num_toString cfg arr' keys.
Proof.
  intros H. unfold compute_widths. generalize (@nil (jsstring * Z)).
  induction keys as [|k t IH]; intros acc; [reflexivity|].
  simpl. now rewrite (col_width_same arr arr' k H), IH.
Qed.

Lemma row_cell_same (arr : list (Value num)) (a b : Value num) key :
  same_properties a b ->
  row_cell num_toString cfg arr a key = row_cell num_toString cfg arr b key.
Proof.
  intros H. unfold row_cell, cell_at, cell_display, cell_display_object.
  now rewrite (H key).
Qed.

Lemma table_row_same (arr : list (Value num)) indent (a b : Value num) :
  same_properties a b ->
  table_row num_toString cfg arr indent a
  = table_row num_toString cfg arr indent b.
Proof.
  intros H. unfold table_row.
  rewrite (map_ext _ _ (fun key => row_cell_same arr a b key H)).
  reflexivity.
Qed.

Lemma table_lines_same (arr arr' : list (Value num)) (indent : nat) :
  firstKeys arr = firstKeys arr' ->
  Forall2 same_properties arr arr' ->
  table_lines num_toString cfg arr indent
  = table_lines num_toString cfg arr' indent.
Proof.
  intros K H.
  assert (W : table_widths num_toString cfg arr
              = table_widths num_toString cfg arr').
  { unfold table_widths. rewrite K. now apply compute_widths_same. }
  assert (R : map (table_row num_toString cfg arr indent) arr
              = map (table_row num_toString cfg arr' indent) arr').
  { apply (map_Forall2 same_properties); [assumption|].
    intros a b Hab. rewrite (table_row_same arr indent a b Hab).
    unfold table_row, row_cell. now rewrite W, K. }
  unfold table_lines. rewrite R.
  unfold table_top, table_header, table_separator, table_bottom,
    table_totalWidth, header_cell, table_rule.
  now rewrite W, K.
Qed.

Lemma forallb_permutation {A : Type} (p : A -> bool) (l l' : list A) :
  Permutation l l' -> forallb p l = forallb p l'.
Proof.
  induction 1 as [|x l l' _ IH|x y l|l l' l'' _ IH1 _ IH2]; simpl.
  - reflexivity.
  - now rewrite IH.
  - now rewrite !andb_assoc, (andb_comm (p y)).
  - now rewrite IH1.
Qed.

Lemma forallb_Forall2 {A : Type} (R : A -> A -> Prop) (p q : A -> bool)
  (l l' : list A) :
  Forall2 R l l' -> (forall a b, R a b -> p a = q b) ->
  forallb p l = forallb q l'.
Proof.
  intros H E. induction H as [|a b l l' Hab _ IH]; [reflexivity|].
  simpl. now rewrite (E a b Hab), IH.
Qed.

(** X7: the columns of a table follow the keys of the first row and each
    cell is read by its key: listing the entries of the later rows in
    another order changes neither the choice of the table layout nor one
    unit of the printed array. *)
Theorem table_ignores_key_order (first : Value num)
  (rest rest' : list (Value num)) (indent : nat) :
  Forall2 reordered rest rest' ->
  table_mode (first :: rest) = table_mode (first :: rest')
  /\ printTable num_toString cfg (first :: rest) indent
     = printTable num_toString cfg (first :: rest') indent
  /\ (table_mode (first :: rest) = true ->
      print num_toString cfg (VArr (first :: rest)) indent
      = print num_toString cfg (VArr (first :: rest')) indent).
Proof.
  intros H.
  assert (Same : Forall2 same_properties (first :: rest) (first :: rest')).
  { constructor; [intros key; reflexivity|].
    induction H as [|r r' l l' (f & f' & -> & -> & ND & P) _ IH];
      constructor; [now apply permuted_same_properties|assumption]. }
  assert (T : table_mode (first :: rest) = table_mode (first :: rest')).
  { pose (shape := fun item : Value num =>
              (length (Object_keys item) =? length (Object_keys first))%nat
              && forallb (fun k => includes (Object_keys first) k)
                   (Object_keys item)).
    assert (O : forallb is_object rest = forallb is_object rest').
    { apply (forallb_Forall2 reordered); [assumption|].
      intros a b (f & f' & -> & -> & _); reflexivity. }
    assert (Sh : forallb shape rest = forallb shape rest').
    { apply (forallb_Forall2 reordered); [assumption|].
      intros a b (f & f' & -> & -> & _ & P). unfold shape. simpl Object_keys.
      assert (PK : Permutation (keys_of f) (keys_of f'))
        by (now apply Permutation_map).
      now rewrite (Permutation_length PK), (forallb_permutation _ _ _ PK). }
    change (table_mode (first :: rest))
      with (if is_object first && forallb is_object rest && true
            then shape first && forallb shape rest
                 && (0 <? length (Object_keys first))%nat
            else false).
    change (table_mode (first :: rest'))
      with (if is_object first && forallb is_object rest' && true
            then shape first && forallb shape rest'
                 && (0 <? length (Object_keys first))%nat
            else false).
    now rewrite O, Sh. }
  assert (E : printTable num_toString cfg (first :: rest) indent
              = printTable num_toString cfg (first :: rest') indent).
  { rewrite !printTable_lines. do 2 f_equal.
    now apply table_lines_same. }
  split; [exact T|split; [exact E|]].
  intros M. simpl print. unfold printArray. simpl length. cbv iota.
  rewrite <- T, M. exact E.
Qed.

(** X8: a non-empty array of objects that all list the same keys, at least
    one, in the same order, as the rows of one query do, is always printed
    as a table. *)
Theorem same_columns_make_table (arr : list (Value num))
  (cols : list jsstring) (indent : nat) :
  arr <> [] -> cols <> [] ->
  (forall row, In row arr -> exists f, row = VObj f /\ keys_of f = cols) ->
  table_mode arr = true
  /\ firstKeys arr = cols
  /\ print num_toString cfg (VArr arr) indent
     = printTable num_toString cfg arr indent.
Proof.
  intros NA NC H.
  assert (K : firstKeys arr = cols).
  { destruct arr as [|r t]; [congruence|].
    destruct (H r (or_introl eq_refl)) as (f & -> & E). exact E. }
  assert (T : table_mode arr = true).
  { unfold table_mode, allObjects, allSameShape. rewrite K.
    replace (0 <? length arr)%nat with true
      by (destruct arr; [congruence|reflexivity]).
    replace (0 <? length cols)%nat with true
      by (destruct cols; [congruence|reflexivity]).
    rewrite !andb_true_r.
    replace (forallb is_object arr) with true.
    - apply forallb_forall. intros row Hr.
      destruct (H row Hr) as (f & -> & E). simpl Object_keys. rewrite E.
      rewrite Nat.eqb_refl. simpl. apply forallb_forall.
      intros k Hk. now apply includes_In.
    - symmetry. apply forallb_forall. intros row Hr.
      now destruct (H row Hr) as (f & -> & _). }
  split; [exact T|split; [exact K|]].
  simpl print. unfold printArray.
  replace (length arr =? 0)%nat with false
    by (destruct arr; [congruence|reflexivity]).
  now rewrite T.
Qed.

End TableRows.

(** ** The list of tables, flat records and the path of the database *)

Section CallerFacts.

Context {num : Type}.
Variable num_toString : num -> jsstring.
Variable cfg : Config.

Lemma tableData_table_mode (tables : list jsstring) :
  tables <> [] -> table_mode (@tableData num tables) = true.
Proof.
  intros NE. destruct tables as [|name rest]; [congruence|].
  unfold table_mode, allObjects, allSameShape.
  change (firstKeys (tableData (name :: rest))) with [lit "table_name"].
  assert (A : forall l : list jsstring,
            forallb is_object (@tableData num l) = true)
    by (induction l; [reflexivity|assumption]).
  assert (B : forall l : list jsstring,
            forallb (fun item : Value num =>
                       (length (Object_keys item)
                          =? length [lit "table_name"])%nat
                       && forallb
                            (fun k => includes [lit "table_name"] k)
                            (Object_keys item))
              (tableData l) = true)
    by (induction l; [reflexivity|assumption]).
  now rewrite A, B.
Qed.

(** X9: the list of the tables of the database, one object with the key
    [table_name] per table, is printed as a table whenever there is a
    table: one column [table_name], one row per table, and the width of
    the column is the greatest visible length of a name and of the header,
    10, capped at 50. *)
Theorem tables_listing_is_table (tables : list jsstring) (indent : nat) :
  tables <> [] ->
  print num_toString cfg (VArr (tableData tables)) indent
    = NL :: join [NL] (table_lines num_toString cfg (tableData tables) indent)
  /\ firstKeys (@tableData num tables) = [lit "table_name"]
  /\ length (table_lines num_toString cfg (tableData tables) indent)
     = (length tables + 4)%nat
  /\ get_width (table_widths num_toString cfg (tableData tables))
       (lit "table_name")
     = Some
         (Z.min
            (Math_max 10
               (map (fun name =>
                       len (stripColors
                              (formatPrimitive num_toString cfg (VStr name))))
                  tables)) 50).
Proof.
  intros NE. pose proof (tableData_table_mode tables NE) as T.
  assert (K : firstKeys (@tableData num tables) = [lit "table_name"])
    by (destruct tables; [congruence|reflexivity]).
  split; [|split; [exact K|split]].
  - simpl print. unfold printArray.
    replace (length (@tableData num tables) =? 0)%nat with false
      by (destruct tables; [congruence|reflexivity]).
    now rewrite T.
  - unfold table_lines, tableData.
    rewrite !length_app, !length_map. simpl. lia.
  - rewrite table_width_read by (try discriminate; rewrite K; now left).
    unfold col_width, tableData. rewrite map_map. reflexivity.
Qed.

Lemma strip_before_reset (g y : jsstring) :
  strip_from 0 ((g ++ esc "[0m") ++ y) = strip_from 0 g ++ strip_from 0 y.
Proof.
  rewrite <- app_assoc. unfold esc.
  change ((ESC :: lit "[0m") ++ y) with (ESC :: (lit "[0m" ++ y)).
  rewrite strip_from_before_escape by lia. f_equal.
Qed.

Lemma ends_with_reset_strip (x y : jsstring) :
  (exists g, x = g ++ esc "[0m") ->
  strip_from 0 (x ++ y) = strip_from 0 x ++ strip_from 0 y.
Proof.
  intros (g & ->). rewrite strip_before_reset.
  pose proof (strip_before_reset g []) as E.
  rewrite !app_nil_r in E. now rewrite E.
Qed.

Lemma strip_join_lines (lines : list jsstring) :
  Forall (fun x => exists g, x = g ++ esc "[0m") lines ->
  stripColors (join [NL] lines) = join [NL] (map stripColors lines).
Proof.
  unfold stripColors.
  induction 1 as [|x t Hx Ht IH]; [reflexivity|].
  destruct t as [|y t]; [reflexivity|].
  change (join [NL] (x :: y :: t)) with (x ++ [NL] ++ join [NL] (y :: t)).
  rewrite ends_with_reset_strip by assumption.
  rewrite strip_clean_prefix by reflexivity. rewrite IH. reflexivity.
Qed.

Lemma formatPrimitive_ends_with_reset (v : Value num) :
  getType v = primitive ->
  exists g, formatPrimitive num_toString cfg v = g ++ esc "[0m".
Proof.
  destruct v as [|s|x|[|]| | |]; try discriminate; intros _; simpl.
  - now exists (esc "[90mnull").
  - exists (esc "[93m" ++ truncate cfg s (max_prim_length cfg)).
    now rewrite <- app_assoc.
  - exists (esc "[36m" ++ truncate cfg (num_toString x) (max_prim_length cfg)).
    now rewrite <- app_assoc.
  - now exists (esc "[32mtrue").
  - now exists (esc "[31mfalse").
Qed.

Lemma key_value_line_visible (indent : nat) (key : jsstring)
  (value : Value num) :
  stripColors (key_value_line num_toString cfg indent key value)
  = repeat_cu SP (2 * indent + 2) ++ stripColors key ++ lit ": "
      ++ stripColors (formatPrimitive num_toString cfg value).
Proof.
  unfold key_value_line, stripColors.
  replace (repeat_cu SP (2 * indent + 2))
    with (lit "  " ++ repeat_cu SP (indent * 2))
    by (replace (2 * indent + 2)%nat with (2 + indent * 2)%nat by lia;
        reflexivity).
  rewrite app_assoc.
  rewrite strip_clean_prefix
    by (apply find_cu_app_None;
        [reflexivity|apply find_cu_repeat_None; discriminate]).
  rewrite <- !app_assoc. do 2 f_equal.
  change (esc "[1m" ++ key ++ esc "[0m" ++ lit ": "
            ++ formatPrimitive num_toString cfg value)
    with (ESC :: 91%N :: [49%N] ++ 109%N
            :: (key ++ esc "[0m" ++ lit ": "
                  ++ formatPrimitive num_toString cfg value)).
  rewrite strip_sequence by reflexivity.
  rewrite app_assoc, strip_before_reset. f_equal.
  now rewrite strip_clean_prefix by reflexivity.
Qed.

(** X10: the visible text of a printed object whose values are all
    strings, numbers, booleans or null is one line per key, in the order of
    the keys: [2 * indent + 2] spaces, the visible text of the key, a colon,
    a space and the visible text of the formatted value. *)
Theorem flat_record_visible_text (fields : list (jsstring * Value num))
  (indent : nat) :
  fields <> [] ->
  Forall (fun kv => getType (snd kv) = primitive) fields ->
  stripColors (print num_toString cfg (VObj fields) indent)
  = join [NL]
      (map (fun kv =>
              repeat_cu SP (2 * indent + 2) ++ stripColors (fst kv)
                ++ lit ": "
                ++ stripColors (formatPrimitive num_toString cfg (snd kv)))
         fields).
Proof.
  intros NE H.
  assert (L : flat_map
                (object_lines num_toString (print num_toString cfg) cfg indent)
                fields
              = map (fun kv =>
                       key_value_line num_toString cfg indent (fst kv) (snd kv))
                  fields).
  { clear NE. induction H as [|[k v] t Hv _ IH]; [reflexivity|].
    simpl flat_map. simpl map. rewrite IH.
    unfold object_lines, is_primitive. simpl in Hv. now rewrite Hv. }
  simpl print. unfold printObject.
  replace (length (keys_of fields) =? 0)%nat with false
    by (destruct fields; [congruence|reflexivity]).
  rewrite L, strip_join_lines.
  - rewrite map_map. f_equal. apply map_ext.
    intros [k v]. apply key_value_line_visible.
  - apply Forall_forall. intros x Hx.
    apply in_map_iff in Hx as ([k v] & <- & Hkv).
    rewrite Forall_forall in H. specialize (H _ Hkv). simpl in H.
    destruct (formatPrimitive_ends_with_reset v H) as (g & G).
    unfold key_value_line. simpl fst. simpl snd. rewrite G.
    exists (lit "  " ++ repeat_cu SP (indent * 2) ++ esc "[1m" ++ k
              ++ esc "[0m" ++ lit ": " ++ g).
    now rewrite <- !app_assoc.
Qed.

End CallerFacts.

(** ** The path of the database *)

Section PathFacts.

Lemma trimStart_spaces (ws : jsstring) (c : cu) (r : jsstring) :
  forallb is_js_space ws = true -> is_js_space c = false ->
  trimStart (ws ++ c :: r) = c :: r.
Proof.
  intros H Hc. induction ws as [|x t IH].
  - simpl. now rewrite Hc.
  - simpl in H. apply andb_true_iff in H as [Hx Ht].
    simpl. rewrite Hx. now apply IH.
Qed.

Lemma forallb_rev {A : Type} (p : A -> bool) (l : list A) :
  forallb p (List.rev l) = forallb p l.
Proof.
  apply forallb_permutation, Permutation_sym, Permutation_rev.
Qed.

Lemma trim_between (ws1 ws2 : jsstring) (c d : cu) (p : jsstring) :
  forallb is_js_space ws1 = true -> forallb is_js_space ws2 = true ->
  is_js_space c = false -> is_js_space d = false ->
  trim (ws1 ++ c :: p ++ d :: ws2) = c :: p ++ [d].
Proof.
  intros H1 H2 Hc Hd. unfold trim.
  rewrite trimStart_spaces by assumption.
  replace (List.rev (c :: p ++ d :: ws2))
    with (List.rev ws2 ++ d :: List.rev (c :: p)).
  - rewrite trimStart_spaces by (try rewrite forallb_rev; assumption).
    change (d :: List.rev (c :: p)) with ([d] ++ List.rev (c :: p)).
    now rewrite rev_app_distr, rev_involutive.
  - change (c :: p ++ d :: ws2) with ((c :: p) ++ d :: ws2).
    rewrite rev_app_distr. simpl. now rewrite <- !app_assoc.
Qed.

Lemma quote_not_space (q : cu) : is_quote q = true -> is_js_space q = false.
Proof.
  unfold is_quote. intros H. apply orb_true_iff in H as [H|H];
    apply N.eqb_eq in H; subst q; reflexivity.
Qed.

Lemma strip_quotes_last (rest : jsstring) (d : cu) :
  match List.rev (rest ++ [d]) with
  | c :: r => if is_quote c then List.rev r else rest ++ [d]
  | [] => rest ++ [d]
  end = if is_quote d then rest else rest ++ [d].
Proof.
  rewrite rev_app_distr. simpl. now rewrite rev_involutive.
Qed.

(** X11: the path typed by the user, once trimmed and stripped: a path
    wrapped in quotes, matching or not, with white space around, gives
    exactly what stands between the two quotes, inner quotes and spaces
    included; a path that starts and ends with units that are neither white
    space nor quote is only trimmed. *)
Theorem clean_path_spec (ws1 ws2 p : jsstring) :
  forallb is_js_space ws1 = true -> forallb is_js_space ws2 = true ->
  (forall q1 q2, is_quote q1 = true -> is_quote q2 = true ->
     clean_path (ws1 ++ q1 :: p ++ q2 :: ws2) = p)
  /\ (forall c d,
        is_js_space c = false -> is_quote c = false ->
        is_js_space d = false -> is_quote d = false ->
        clean_path (ws1 ++ c :: p ++ d :: ws2) = c :: p ++ [d]).
Proof.
  intros H1 H2. split.
  - intros q1 q2 Q1 Q2. unfold clean_path.
    rewrite trim_between by (try apply quote_not_space; assumption).
    unfold strip_quotes. rewrite Q1.
    now rewrite strip_quotes_last, Q2.
  - intros c d Sc Qc Sd Qd. unfold clean_path.
    rewrite trim_between by assumption.
    unfold strip_quotes. rewrite Qc.
    change (c :: p ++ [d]) with ((c :: p) ++ [d]).
    now rewrite strip_quotes_last, Qd.
Qed.

End PathFacts.

(** ** Lists of scalars and the cells the table leaves whole *)

Section MoreLayoutFacts.

Context {num : Type}.
Variable num_toString : num -> jsstring.
Variable cfg : Config.

Lemma scalars_not_table (items : list (Value num)) :
  items <> [] -> Forall (fun v => getType v = primitive) items ->
  table_mode items = false.
Proof.
  intros NE H. destruct H as [|v t Hv _]; [congruence|].
  unfold table_mode, allObjects. simpl forallb.
  unfold is_object at 1. now rewrite Hv.
Qed.

(** X12: a non-empty array of strings, numbers, booleans and nulls is never
    a table; its visible text is one line per element, in order, each made
    of [2 * indent + 2] spaces and the visible text of the formatted
    element. *)
Theorem scalar_list_visible_text (items : list (Value num)) (indent : nat) :
  items <> [] ->
  Forall (fun v => getType v = primitive) items ->
  table_mode items = false
  /\ stripColors (print num_toString cfg (VArr items) indent)
     = join [NL]
         (map (fun v =>
                 repeat_cu SP (2 * indent + 2)
                   ++ stripColors (formatPrimitive num_toString cfg v))
            items).
Proof.
  intros NE H. pose proof (scalars_not_table items NE H) as T.
  split; [exact T|].
  simpl print. unfold printArray.
  replace (length items =? 0)%nat with false
    by (destruct items; [congruence|reflexivity]).
  rewrite T. unfold vertical_list.
  assert (P : forall v, getType v = primitive ->
            print num_toString cfg v (indent + 1)
            = repeat_cu SP (2 * indent + 2)
                ++ formatPrimitive num_toString cfg v).
  { intros v Hv.
    replace (2 * indent + 2)%nat with ((indent + 1) * 2)%nat by lia.
    destruct v; try discriminate; reflexivity. }
  rewrite strip_join_lines.
  - rewrite map_map. f_equal. apply map_ext_in. intros v Hv.
    rewrite Forall_forall in H. rewrite (P v (H v Hv)).
    unfold stripColors.
    now rewrite strip_clean_prefix
      by (apply find_cu_repeat_None; discriminate).
  - apply Forall_forall. intros x Hx.
    apply in_map_iff in Hx as (v & <- & Hv).
    rewrite Forall_forall in H. rewrite (P v (H v Hv)).
    destruct (formatPrimitive_ends_with_reset num_toString cfg v (H v Hv))
      as (g & ->).
    exists (repeat_cu SP (2 * indent + 2) ++ g). now rewrite <- app_assoc.
Qed.

(** X13: the cell of a row under a key of the table other than
    [__proto__], when the visible text of the formatted value holds no line
    break and no escape unit.  In either style a text of at most 50 units is
    printed whole: the cell is a space, the color of the formatted value,
    the text, the spaces that pad it to the width of the column, the reset
    and a space.  In the compact style a longer text gets a column of width
    50 and the cell holds its first 47 units followed by three dots. *)
Theorem table_cell_truncation (arr : list (Value num)) (key : jsstring)
  (row : Value num) :
  In row arr -> In key (firstKeys arr) -> key <> proto_key ->
  let width := col_width num_toString cfg arr key in
  let display := formatPrimitive num_toString cfg (prop row key) in
  let plain := stripColors display in
  find_cu NL plain = None -> find_cu ESC plain = None ->
  (len plain <= 50 ->
   len plain <= width
   /\ row_cell num_toString cfg arr row key
      = lit " " ++ leading_sgr display ++ plain
          ++ repeat_cu SP (Z.to_nat (width - len plain))
          ++ esc "[0m" ++ lit " ")
  /\ (50 < len plain -> discourage_multiline cfg = false ->
      width = 50
      /\ row_cell num_toString cfg arr row key
         = lit " " ++ leading_sgr display ++ firstn 47 plain ++ lit "..."
             ++ esc "[0m" ++ lit " ").
Proof.
  intros Hr Hk NP width display plain Hn He.
  pose proof (col_width_covers_cell num_toString cfg arr key row Hr) as Hc.
  pose proof (col_width_bounds num_toString cfg arr key) as Hb.
  fold display in Hc. fold plain in Hc. fold width in Hc, Hb.
  assert (C : row_cell num_toString cfg arr row key
              = lit " "
                  ++ (leading_sgr display
                        ++ padEnd (stripColors (truncate cfg plain (Some width)))
                             width
                        ++ esc "[0m")
                  ++ lit " ").
  { unfold row_cell. now rewrite table_width_read by assumption. }
  split.
  - intros L. split; [lia|].
    assert (T : truncate cfg plain (Some width) = plain).
    { apply truncate_fits. rewrite effective_max_no_break by assumption.
      unfold limit_or_length. destruct (no_limit (Some width)); lia. }
    rewrite C, T, stripColors_plain by assumption.
    unfold padEnd. now rewrite <- !app_assoc.
  - intros L Hd. assert (W : width = 50) by lia. split; [exact W|].
    assert (B : 3 <= 50 < len plain) by lia.
    destruct (truncate_compact_exact cfg plain 50 Hn B (or_introl Hd))
      as (T & E).
    change (Z.to_nat (50 - 3)) with 47%nat in T.
    rewrite C, W, T.
    assert (F : find_cu ESC (firstn 47 plain ++ lit "...") = None)
      by (now apply find_cu_firstn_app_None).
    rewrite (stripColors_plain _ F).
    unfold padEnd. rewrite <- T, E. change (Z.to_nat (50 - 50)) with 0%nat.
    rewrite T. simpl repeat_cu. rewrite app_nil_r.
    now rewrite <- !app_assoc.
Qed.

End MoreLayoutFacts.

(** * Instances of the further properties *)

Lemma truncate_compact_single_line_witness :
  find_cu NL (truncate default_config hello_world (Some 8)) = None
  /\ len (truncate default_config hello_world (Some 8)) <= 8.
Proof.
  destruct (truncate_compact_single_line default_config hello_world (Some 8))
    as (N & L & _).
  - left. reflexivity.
  - right. vm_compute. discriminate.
  - split; [exact N|exact L].
Defined.

Lemma truncate_annotated_visible_witness :
  len (stripColors (truncate annotating_config sixty_a (Some 30))) = 30 - 1.
Proof.
  apply (truncate_annotated_visible annotating_config sixty_a 30).
  - reflexivity.
  - vm_compute. split; reflexivity.
  - reflexivity.
  - reflexivity.
  - vm_compute. discriminate.
Defined.

Ltac each_member H :=
  simpl in H;
  repeat (destruct H as [H|H]; [subst|]); try contradiction.

Lemma table_borders_same_length_witness :
  len (table_top int_toString default_config xy_rows 1)
  = border_length int_toString default_config xy_rows 1
  /\ len (table_bottom int_toString default_config xy_rows 1)
     = border_length int_toString default_config xy_rows 1.
Proof.
  destruct (table_borders_same_length int_toString default_config xy_rows 1)
    as (_ & _ & _ & T & _ & B).
  - discriminate.
  - intros H. each_member H; discriminate.
  - split; [exact T|exact B].
Defined.

Lemma table_lines_aligned_witness :
  Forall (fun line =>
            len (stripColors line)
            = border_length int_toString default_config xy_rows 0)
    (table_lines int_toString default_config xy_rows 0).
Proof.
  apply (table_lines_aligned int_toString default_config xy_rows 0).
  - reflexivity.
  - discriminate.
  - intros H. each_member H; discriminate.
  - intros key H. each_member H; split; (reflexivity || discriminate).
  - intros row key Hr Hk. each_member Hr; each_member Hk;
      split; reflexivity.
Defined.

Lemma table_ignores_key_order_witness :
  print int_toString default_config (VArr xy_rows) 0
  = print int_toString default_config (VArr yx_rows) 0.
Proof.
  apply (table_ignores_key_order int_toString default_config
           (VObj [(lit "x", VNum 1); (lit "y", VNum 2)])
           [VObj [(lit "y", VNum 4); (lit "x", VNum 3)]]
           [VObj [(lit "x", VNum 3); (lit "y", VNum 4)]] 0).
  - constructor; [|constructor].
    exists [(lit "y", VNum 4); (lit "x", VNum 3)],
           [(lit "x", VNum 3); (lit "y", VNum 4)].
    repeat split; [distinct_strings|apply perm_swap].
  - reflexivity.
Defined.

Lemma same_columns_make_table_witness :
  table_mode yx_rows = true
  /\ print int_toString default_config (VArr yx_rows) 0
     = printTable int_toString default_config yx_rows 0.
Proof.
  destruct (same_columns_make_table int_toString default_config yx_rows
              [lit "x"; lit "y"] 0) as (T & _ & P).
  - discriminate.
  - discriminate.
  - intros row H. each_member H; eexists; split; reflexivity.
  - split; [exact T|exact P].
Defined.

Lemma tables_listing_is_table_witness :
  length (table_lines int_toString default_config (tableData table_names) 0)
  = 7%nat
  /\ get_width (table_widths int_toString default_config
                  (tableData table_names)) (lit "table_name") = Some 12.
Proof.
  destruct (tables_listing_is_table int_toString default_config
              table_names 0) as (_ & _ & L & W).
  - discriminate.
  - split; [exact L|]. rewrite W. reflexivity.
Defined.

Lemma flat_record_visible_text_witness :
  stripColors (print int_toString default_config (VObj status_record) 0)
  = lit "  user: Alice" ++ [NL] ++ lit "  age: 30" ++ [NL]
      ++ lit "  active: true" ++ [NL] ++ lit "  score: null".
Proof.
  rewrite (flat_record_visible_text int_toString default_config
             status_record 0).
  - reflexivity.
  - discriminate.
  - repeat constructor.
Defined.

Lemma scalar_list_visible_text_witness :
  stripColors (print int_toString default_config (VArr tags) 0)
  = lit "  admin" ++ [NL] ++ lit "  beta" ++ [NL] ++ lit "  7".
Proof.
  destruct (scalar_list_visible_text int_toString default_config tags 0)
    as (_ & V).
  - discriminate.
  - repeat constructor.
  - rewrite V. reflexivity.
Defined.

Lemma table_cell_truncation_witness :
  row_cell int_toString default_config xy_rows
    (VObj [(lit "x", VNum 1); (lit "y", VNum 2)]) (lit "y")
  = lit " " ++ esc "[36m" ++ lit "2" ++ esc "[0m" ++ lit " ".
Proof.
  destruct (table_cell_truncation int_toString default_config xy_rows
              (lit "y") (VObj [(lit "x", VNum 1); (lit "y", VNum 2)]))
    as (F & _).
  - left. reflexivity.
  - right. left. reflexivity.
  - discriminate.
  - reflexivity.
  - reflexivity.
  - destruct F as (_ & C); [vm_compute; discriminate|].
    rewrite C. reflexivity.
Defined.

Lemma clean_path_spec_witness :
  clean_path (lit "  '/tmp/my db.sqlite' ") = lit "/tmp/my db.sqlite".
Proof.
  destruct (clean_path_spec (lit "  ") (lit " ") (lit "/tmp/my db.sqlite"))
    as (Q & _).
  - reflexivity.
  - reflexivity.
  - exact (Q 39%N 39%N eq_refl eq_refl).
Defined.
